(** * Englytics: the translation cache and the aggregation layer

    A shallow embedding of the stateful core of the Englytics dictionary
    front end (React, TypeScript), and the properties its specification
    states about it.

    The repository carries two revisions of the component [DictionaryApp]:
    - [src/src/App.tsx], the plain revision: no translation cache, the
      head word is translated by [fetchTranslation] alone;
    - the caching revision, the TypeScript text that follows the prose in
      [src/README.md]: it adds [translateText] (the translation client with
      its 24 hour cache) and [translateDefinitionsAndExamples] (the bulk
      translation), and calls them from [fetchDefinitions] and
      [fetchTranslation].
    [fetchRelatedWords], [addToHistory], [toggleFavorite], the guard of
    [handleSearch] and the [catch] of [fetchDefinitions] read the same in
    both.  The callbacks are those of the caching revision; what the plain
    revision has of its own is in [Module Plain].  Line numbers written "README n" are lines of [src/README.md],
    those written "App n" are lines of [src/src/App.tsx].

    Conventions of the embedding.
    - A JavaScript string is a [string]; each [ascii] stands for one UTF-16
      code unit below 256, so [trim] and [toLowerCase] are the built-ins
      restricted to such strings.
    - [Date.now()] is a [Z], in milliseconds.
    - The score of a related word is a [Z]: the semantic API returns
      integers, and the comparator [b.score - a.score] only uses its sign.
    - A React state variable is a field of [App.State]; a [set...] call is a
      functional update of that field.  A callback reads the state of the
      render that created it, which is the state passed to its model here.
    - The outside world (clock, network) is an explicit argument; what a
      call does beyond the React state is returned as a list of [Event]s,
      the events of calls that run in parallel being listed call by call,
      in the order the program starts them. *)

From Stdlib Require Import ZArith Lia List Bool Ascii String Sorted Permutation.
From stdpp Require Import base gmap strings list.

Open Scope string_scope.

(** ** JavaScript strings *)

(** [WhiteSpace] and [LineTerminator] code units below 256: TAB, LF, VT, FF,
    CR, SP, NBSP. *)
Definition isWhiteSpace (c : ascii) : bool :=
  let n := nat_of_ascii c in
  (((9 <=? n) && (n <=? 13)) || (n =? 32) || (n =? 160))%nat.

Fixpoint trimStart (s : string) : string :=
  match s with
  | EmptyString => EmptyString
  | String c r => if isWhiteSpace c then trimStart r else s
  end.

(** [trimEnd s] drops the trailing white space: a character is kept when it
    is not white space or when something is kept after it. *)
Fixpoint trimEnd (s : string) : string :=
  match s with
  | EmptyString => EmptyString
  | String c r =>
      match trimEnd r with
      | EmptyString => if isWhiteSpace c then EmptyString else String c EmptyString
      | kept => String c kept
      end
  end.

(** [String.prototype.trim]. *)
Definition trim (s : string) : string := trimEnd (trimStart s).

(** Truthiness of a string value: every string but the empty one. *)
Definition truthy (s : string) : bool := negb (String.eqb s "").

(** [a || b] where [a] is an optional string ([None] is [undefined]). *)
Definition js_or (a : option string) (b : string) : string :=
  match a with
  | Some s => if truthy s then s else b
  | None => b
  end.

(** [toLowerCase] on one code unit below 256: A-Z, and the Latin-1 capitals
    U+00C0..U+00DE without the multiplication sign U+00D7. *)
Definition lowerChar (c : ascii) : ascii :=
  let n := nat_of_ascii c in
  if (((65 <=? n) && (n <=? 90))
      || ((192 <=? n) && (n <=? 222) && negb (n =? 215)))%nat
  then ascii_of_nat (n + 32) else c.

Fixpoint toLowerCase (s : string) : string :=
  match s with
  | EmptyString => EmptyString
  | String c r => String (lowerChar c) (toLowerCase r)
  end.

(** Decimal digits of an index, as a template literal prints a number. *)
Definition digitChar (n : nat) : ascii := ascii_of_nat (48 + n mod 10).

Fixpoint decimalAux (fuel n : nat) (acc : string) : string :=
  match fuel with
  | O => acc
  | S fuel' =>
      let acc' := String (digitChar n) acc in
      if (n <? 10)%nat then acc' else decimalAux fuel' (n / 10) acc'
  end.

Definition decimal (n : nat) : string := decimalAux (S n) n "".

(** The last code unit of a string, if any. *)
Fixpoint lastChar (s : string) : option ascii :=
  match s with
  | EmptyString => None
  | String c r => match lastChar r with Some d => Some d | None => Some c end
  end.

(** ** JavaScript arrays and objects *)

(** [a.map((x, i) => ...)] sees each element with its index. *)
Definition indexed {A : Type} (l : list A) : list (nat * A) :=
  combine (seq 0 (length l)) l.

(** [Array.prototype.findIndex]; [None] stands for -1. *)
Fixpoint findIndex {A : Type} (p : A -> bool) (l : list A) : option nat :=
  match l with
  | [] => None
  | x :: r => if p x then Some 0 else option_map S (findIndex p r)
  end.

(** [a.filter((v, i, a) => p v i a)]. *)
Definition filterIndexed {A : Type} (p : A -> nat -> list A -> bool)
    (a : list A) : list A :=
  map snd (List.filter (fun iv => p (snd iv) (fst iv) a) (indexed a)).

(** A plain object used as a dictionary, as the list [Object.entries]
    returns: assigning a key that is present replaces the value where it
    stands, a new key goes to the end.  (Keys that are array indices would
    be listed first; none of the keys built below is one, each holds a
    hyphen.) *)
Definition JsObject : Type := list (string * string).

Fixpoint obj_set (o : JsObject) (k v : string) : JsObject :=
  match o with
  | [] => [(k, v)]
  | (k', v') :: r =>
      if String.eqb k' k then (k', v) :: r else (k', v') :: obj_set r k v
  end.

Definition obj_assign_all (o : JsObject) (kvs : list (string * string)) : JsObject :=
  fold_left (fun acc kv => obj_set acc (fst kv) (snd kv)) kvs o.

(** ** Data model (README 71-109, App 4-35) *)

(** [DictionaryResponse], without the fields no callback reads (phonetics,
    synonyms, antonyms, sourceUrls, license, origin). *)
Module Def.
Record t := mk { definition : string; example : option string }.
End Def.

Module Meaning.
Record t := mk { partOfSpeech : string; definitions : list Def.t }.
End Meaning.

Module Entry.
Record t := mk { word : string; meanings : list Meaning.t }.
End Entry.

Module RelatedWord.
Record t := mk { word : string; score : Z }.
End RelatedWord.

(** [type Language = 'en' | 'pt-BR'] (README 102). *)
Inductive Language := en | ptBR.

(** One value of [TranslationCache] (README 104-109). *)
Module Cache.
Record entry := mk { text : string; timestamp : Z }.
End Cache.

(** [{text, source}], the state [translation] (README 116). *)
Module Translation.
Record t := mk { text : string; source : string }.
End Translation.

(** The React state of [DictionaryApp] (README 113-128), without the fields
    that only drive the display (theme, activeTab, audioPlaying, speaking). *)
Module App.
Record State := mk {
    word : string;
    definitions : list Entry.t;
    relatedWords : list RelatedWord.t;
    translation : option Translation.t;
    favorites : list string;
    history : list string;
    language : Language;
    loading : bool;
    error : option string;
    translationCache : gmap string Cache.entry;
    definitionTranslations : JsObject;
    exampleTranslations : JsObject
  }.

  (** The state setters [useState] returns. *)
Definition setWord (v : string) (s : State) : State :=
    let '(mk _ d r t f h l lo e c dt et) := s in mk v d r t f h l lo e c dt et.
Definition setDefinitions (v : list Entry.t) (s : State) : State :=
    let '(mk w _ r t f h l lo e c dt et) := s in mk w v r t f h l lo e c dt et.
Definition setRelatedWords (v : list RelatedWord.t) (s : State) : State :=
    let '(mk w d _ t f h l lo e c dt et) := s in mk w d v t f h l lo e c dt et.
Definition setTranslation (v : option Translation.t) (s : State) : State :=
    let '(mk w d r _ f h l lo e c dt et) := s in mk w d r v f h l lo e c dt et.
Definition setFavorites (v : list string) (s : State) : State :=
    let '(mk w d r t _ h l lo e c dt et) := s in mk w d r t v h l lo e c dt et.
Definition setHistory (v : list string) (s : State) : State :=
    let '(mk w d r t f _ l lo e c dt et) := s in mk w d r t f v l lo e c dt et.
Definition setLoading (v : bool) (s : State) : State :=
    let '(mk w d r t f h l _ e c dt et) := s in mk w d r t f h l v e c dt et.
Definition setError (v : option string) (s : State) : State :=
    let '(mk w d r t f h l lo _ c dt et) := s in mk w d r t f h l lo v c dt et.
Definition setTranslationCache (v : gmap string Cache.entry) (s : State) : State :=
    let '(mk w d r t f h l lo e _ dt et) := s in mk w d r t f h l lo e v dt et.
Definition setDefinitionTranslations (v : JsObject) (s : State) : State :=
    let '(mk w d r t f h l lo e c _ et) := s in mk w d r t f h l lo e c v et.
Definition setExampleTranslations (v : JsObject) (s : State) : State :=
    let '(mk w d r t f h l lo e c dt _) := s in mk w d r t f h l lo e c dt v.
End App.

(** ** The outside world *)

(** The requests the callbacks send. *)
Inductive Request :=
| DictionaryEntries (word : string)
    (** GET api.dictionaryapi.dev/api/v2/entries/en/[word] *)
| DatamuseWords (rel word : string)
    (** GET api.datamuse.com/words?[rel]=[word] *)
| MyMemoryBare
    (** GET api.mymemory.translated.net/get, without a query (README 256) *)
| MyMemoryGet (q langpair : string).
    (** GET api.mymemory.translated.net/get?q=..&langpair=.. (README 264-268) *)

(** What a callback does beyond the React state. *)
Inductive Event :=
| ReadCache (key : string)        (** [translationCache[key]] *)
| Fetch (r : Request)             (** [fetch(...)] *)
| ConsoleError (label : string)   (** [console.error(label, err)] *)
| LocalStorageSet (key : string)  (** [localStorage.setItem(key, ...)] *)
| TranslateCall (text : string) (cacheKey : option string).
                                  (** a call [translateText(text, cacheKey)] *)

(** A value caught by [catch (err)]. *)
Inductive Thrown :=
| ErrorObject (message : string)  (** [err instanceof Error] *)
| OtherValue.

(** The body of the translation response, as [translateText] reads it
    (README 269-272). *)
Inductive TranslationBody :=
| NotJson                   (** [translationResponse.json()] rejects *)
| DataNull                  (** [data] is null: reading [data.responseData] throws *)
| NoResponseData            (** [data.responseData] is falsy *)
| ResponseData (translatedText : option string).
                            (** [None]: the property is absent *)

(** What one call of [translateText] meets. *)
Record TranslateWorld := {
  clock : Z;
    (** [Date.now()] when the cache is checked (README 251) *)
  bare : option bool;
    (** the first [fetch] (README 256): [None] when it rejects, else
        [response.ok] *)
  reply : option (bool * TranslationBody);
    (** the second [fetch] (README 268): [None] when it rejects, else
        [translationResponse.ok] and the body *)
  clock_store : Z
    (** [Date.now()] when the entry is written (README 279) *)
}.

(** The answer of the lexical API to [fetchDefinitions]. *)
Inductive DictionaryReply :=
| FetchRejected (err : Thrown)
| HttpError (status : Z)          (** [response.ok] is false *)
| JsonRejected (err : Thrown)
| Parsed (data : list Entry.t).

(** The answer of the semantic API to one of the three requests of
    [fetchRelatedWords]. *)
Inductive WordsReply :=
| WordsRejected         (** [fetch] or [res.json()] rejects *)
| WordsNotIterable      (** the JSON value cannot be spread *)
| Words (l : list RelatedWord.t).

(** What one call of [handleSearch] meets. *)
Record SearchWorld := {
  dictionary : DictionaryReply;
  synonyms : WordsReply;
  triggers : WordsReply;
  adjectives : WordsReply;
  translations : string -> TranslateWorld
    (** the world of the [translateText] call made with this cache key *)
}.

(** ** Translation cache and translation client (README 243-299) *)

(** [24 * 60 * 60 * 1000] *)
Definition DAY_MS : Z := 24 * 60 * 60 * 1000.

(** The read of README 248-253: the entry counts when it is there and
    [Date.now() - cached.timestamp < 24 * 60 * 60 * 1000]. *)
Definition cache_lookup (translationCache : gmap string Cache.entry)
    (key : string) (now : Z) : option string :=
  match translationCache !! key with
  | Some cached =>
      if (now - Cache.timestamp cached <? DAY_MS)%Z
      then Some (Cache.text cached) else None
  | None => None
  end.

(** The write of README 275-281: [{...translationCache, [key]: {text,
    timestamp}}]. *)
Definition cache_store (translationCache : gmap string Cache.entry)
    (key translatedText : string) (now : Z) : gmap string Cache.entry :=
  <[key := Cache.mk translatedText now]> translationCache.

(** What a call of [translateText] yields: the string it resolves to, the
    argument of [setTranslationCache] when it is called, and its effects. *)
Record Translated := {
  returned : string;
  cacheWrite : option (gmap string Cache.entry);
  effects : list Event
}.

(** [data.responseData && data.responseData.translatedText], when truthy. *)
Definition usableText (b : TranslationBody) : option string :=
  match b with
  | ResponseData (Some translatedText) =>
      if truthy translatedText then Some translatedText else None
  | _ => None
  end.

(** Whether reading the body throws into the [catch] of README 294. *)
Definition bodyThrows (b : TranslationBody) : bool :=
  match b with
  | NotJson | DataNull => true
  | _ => false
  end.

(** [translateText(text, cacheKey?)], with [language] and [translationCache]
    as the callback closes over them. *)
Definition translateText (language : Language)
    (translationCache : gmap string Cache.entry) (w : TranslateWorld)
    (text : string) (cacheKey : option string) : Translated :=
  match language with
  | en => {| returned := text; cacheWrite := None; effects := [] |}
  | ptBR =>
      let key := js_or cacheKey text in
      match cache_lookup translationCache key (clock w) with
      | Some cachedText =>
          {| returned := cachedText; cacheWrite := None;
             effects := [ReadCache key] |}
      | None =>
          match bare w with
          | None =>
              {| returned := text; cacheWrite := None;
                 effects := [ReadCache key; Fetch MyMemoryBare;
                             ConsoleError "Translation failed:"] |}
          | Some false =>
              {| returned := text; cacheWrite := None;
                 effects := [ReadCache key; Fetch MyMemoryBare] |}
          | Some true =>
              let sent := [ReadCache key; Fetch MyMemoryBare;
                           Fetch (MyMemoryGet text "en|pt-br")] in
              match reply w with
              | None =>
                  {| returned := text; cacheWrite := None;
                     effects := sent ++ [ConsoleError "Translation failed:"] |}
              | Some (_, body) =>
                  match usableText body with
                  | Some translatedText =>
                      {| returned := translatedText;
                         cacheWrite :=
                           Some (cache_store translationCache key
                                   translatedText (clock_store w));
                         effects := sent ++ [LocalStorageSet "translationCache"] |}
                  | None =>
                      {| returned := text; cacheWrite := None;
                         effects :=
                           if bodyThrows body
                           then sent ++ [ConsoleError "Translation failed:"]
                           else sent |}
                  end
              end
          end
      end
  end.

(** The cache a later render sees after a call: the written one, if any. *)
Definition cacheAfter (translationCache : gmap string Cache.entry)
    (r : Translated) : gmap string Cache.entry :=
  match cacheWrite r with
  | Some newCache => newCache
  | None => translationCache
  end.

(** The number of requests, and of cache reads, among the events of a call. *)
Definition isFetch (e : Event) : bool :=
  match e with Fetch _ => true | _ => false end.

Definition isReadCache (e : Event) : bool :=
  match e with ReadCache _ => true | _ => false end.

Definition networkCalls (es : list Event) : nat := length (List.filter isFetch es).

Definition cacheReads (es : list Event) : nat := length (List.filter isReadCache es).

(** A callback changes the state through setters only: its model returns the
    update it applies, built from the state of the render that created it,
    and the events it causes. *)
Definition Update : Type := App.State -> App.State.

(** [setTranslationCache(newCache)], when the call reached it. *)
Definition writeCache (r : Translated) : Update :=
  match cacheWrite r with
  | Some newCache => App.setTranslationCache newCache
  | None => fun s => s
  end.

(** ** Bulk translation (README 301-354) *)

(** [`${def.word}-${meaning.partOfSpeech}-${defIndex}`] *)
Definition defKey (word partOfSpeech : string) (defIndex : nat) : string :=
  word ++ "-" ++ partOfSpeech ++ "-" ++ decimal defIndex.

(** [`${def.word}-${meaning.partOfSpeech}-${defIndex}-example`] *)
Definition exampleKey (word partOfSpeech : string) (defIndex : nat) : string :=
  defKey word partOfSpeech defIndex ++ "-example".

(** The body of the innermost [forEach] (README 310-318), on the pair
    [(definitionsToTranslate, examplesToTranslate)]. *)
Definition visitDefinition (word partOfSpeech : string)
    (acc : JsObject * JsObject) (d : nat * Def.t) : JsObject * JsObject :=
  let definitionsToTranslate :=
    obj_set (fst acc) (defKey word partOfSpeech (fst d)) (Def.definition (snd d)) in
  let examplesToTranslate :=
    match Def.example (snd d) with
    | Some example =>
        if truthy example
        then obj_set (snd acc) (exampleKey word partOfSpeech (fst d)) example
        else snd acc
    | None => snd acc
    end in
  (definitionsToTranslate, examplesToTranslate).

Definition visitMeaning (word : string) (acc : JsObject * JsObject)
    (meaning : Meaning.t) : JsObject * JsObject :=
  fold_left (visitDefinition word (Meaning.partOfSpeech meaning))
            (indexed (Meaning.definitions meaning)) acc.

Definition visitEntry (acc : JsObject * JsObject) (def : Entry.t)
    : JsObject * JsObject :=
  fold_left (visitMeaning (Entry.word def)) (Entry.meanings def) acc.

(** The three nested [forEach] of README 308-320. *)
Definition collectTexts (definitions : list Entry.t) : JsObject * JsObject :=
  fold_left visitEntry definitions ([], []).

(** One [async ([key, text]) => translateText(text, key)] (README 323-332),
    with the key, the call and what it yields. *)
Definition translateEntry (language : Language)
    (translationCache : gmap string Cache.entry)
    (worldOf : string -> TranslateWorld) (kv : string * string)
    : string * Translated :=
  (fst kv,
   translateText language translationCache (worldOf (fst kv)) (snd kv) (Some (fst kv))).

Definition entryEvents (kv : string * string) (r : string * Translated) : list Event :=
  TranslateCall (snd kv) (Some (fst kv)) :: effects (snd r).

(** The object README 338-347 fills from the results. *)
Definition resultsObject (results : list (string * Translated)) : JsObject :=
  obj_assign_all [] (map (fun r => (fst r, returned (snd r))) results).

Definition writeCaches (results : list (string * Translated)) : Update :=
  fun s => fold_left (fun acc r => writeCache (snd r) acc) results s.

(** [translateDefinitionsAndExamples(definitions)].  Every call reads the
    cache of the same render; their writes are applied in call order. *)
Definition translateDefinitionsAndExamples (st : App.State)
    (worldOf : string -> TranslateWorld) (definitions : list Entry.t)
    : Update * list Event :=
  match App.language st with
  | en => (fun s => s, [])
  | ptBR =>
      let texts := collectTexts definitions in
      let run := translateEntry (App.language st) (App.translationCache st) worldOf in
      let defResults := map run (fst texts) in
      let exampleResults := map run (snd texts) in
      (fun s =>
         App.setExampleTranslations (resultsObject exampleResults)
           (App.setDefinitionTranslations (resultsObject defResults)
              (writeCaches exampleResults (writeCaches defResults s))),
       concat (map (fun kv => entryEvents kv (run kv)) (fst texts ++ snd texts)))
  end.

(** ** Dictionary lookup (README 357-379, App 77-96) *)

(** [t.wordNotFound] (README 164, 198). *)
Definition wordNotFound (language : Language) : string :=
  match language with
  | en => "Word not found"
  | ptBR => "Palavra n" ++ String (ascii_of_nat 227) "o encontrada"
  end.

(** [err instanceof Error ? err.message : 'An unknown error occurred'] *)
Definition thrownMessage (err : Thrown) : string :=
  match err with
  | ErrorObject message => message
  | OtherValue => "An unknown error occurred"
  end.

(** The [catch] and [finally] of [fetchDefinitions], after the two setters
    that open it. *)
Definition lookupFailed (message : string) : Update :=
  fun s =>
    App.setLoading false
      (App.setDefinitions [] (App.setError (Some message)
         (App.setError None (App.setLoading true s)))).

Definition fetchDefinitions (st : App.State) (r : DictionaryReply)
    (worldOf : string -> TranslateWorld) (word : string) : Update * list Event :=
  let sent := [Fetch (DictionaryEntries word)] in
  match r with
  | FetchRejected err => (lookupFailed (thrownMessage err), sent)
  | HttpError status =>
      (lookupFailed (if (status =? 404)%Z then wordNotFound (App.language st)
                     else "Failed to fetch data"), sent)
  | JsonRejected err => (lookupFailed (thrownMessage err), sent)
  | Parsed data =>
      let bulk := translateDefinitionsAndExamples st worldOf data in
      (fun s =>
         App.setLoading false
           (fst bulk (App.setDefinitions data
              (App.setError None (App.setLoading true s)))),
       (sent ++ snd bulk)%list)
  end.

(** ** Related words (README 381-398, App 98-115) *)

(** [.filter((v, i, a) => a.findIndex(t => t.word === v.word) === i)] *)
Definition firstOfItsWord (v : RelatedWord.t) (i : nat) (a : list RelatedWord.t) : bool :=
  match findIndex (fun t => String.eqb (RelatedWord.word t) (RelatedWord.word v)) a with
  | Some j => (j =? i)%nat
  | None => false
  end.

(** [.sort((a, b) => b.score - a.score)].  [Array.prototype.sort] is stable,
    and the comparator is a total preorder on integer scores, so the result
    is the sorted arrangement that keeps the input order among equal
    scores; inserting from the right, before the first element whose score
    is not larger, computes it. *)
Fixpoint insertByScore (x : RelatedWord.t) (l : list RelatedWord.t)
    : list RelatedWord.t :=
  match l with
  | [] => [x]
  | y :: r =>
      if (RelatedWord.score y <=? RelatedWord.score x)%Z
      then x :: y :: r
      else y :: insertByScore x r
  end.

Definition sortByScore (l : list RelatedWord.t) : list RelatedWord.t :=
  fold_right insertByScore [] l.

(** The constant [combined] (README 389-392). *)
Definition combined (synonyms triggers adjectives : list RelatedWord.t)
    : list RelatedWord.t :=
  firstn 30
    (sortByScore
       (filterIndexed firstOfItsWord (synonyms ++ triggers ++ adjectives)%list)).

Definition fetchRelatedWords (word : string)
    (synonyms triggers adjectives : WordsReply) : Update * list Event :=
  let sent := [Fetch (DatamuseWords "rel_syn" word);
               Fetch (DatamuseWords "rel_trg" word);
               Fetch (DatamuseWords "rel_jjb" word)] in
  match synonyms, triggers, adjectives with
  | Words s, Words t, Words a => (App.setRelatedWords (combined s t a), sent)
  | _, _, _ =>
      (fun s => s, (sent ++ [ConsoleError "Failed to load related words:"])%list)
  end.

(** ** Head word translation (README 400-416) *)

Definition mainWordKey (word : string) : string := "main-word-" ++ word.

Definition Portugues : string := "Portugu" ++ String (ascii_of_nat 234) "s".

Definition fetchTranslation (st : App.State)
    (worldOf : string -> TranslateWorld) (word : string) : Update * list Event :=
  match App.language st with
  | en => (App.setTranslation None, [])
  | ptBR =>
      let key := mainWordKey word in
      let translated :=
        translateText (App.language st) (App.translationCache st)
                      (worldOf key) word (Some key) in
      (fun s =>
         App.setTranslation (Some (Translation.mk (returned translated) Portugues))
           (writeCache translated s),
       TranslateCall word (Some key) :: effects translated)
  end.

(** ** History and favourites (README 419-457, App 153-170) *)

(** The constant [newHistory] of [addToHistory]. *)
Definition newHistory (history : list string) (word : string) : list string :=
  firstn 15
    (toLowerCase word
     :: List.filter
          (fun w => negb (String.eqb (toLowerCase w) (toLowerCase word)))
          history).

Definition addToHistory (st : App.State) (word : string) : Update * list Event :=
  (App.setHistory (newHistory (App.history st) word),
   [LocalStorageSet "dictionaryHistory"]).

(** [favorites.includes(word)] *)
Definition includes (l : list string) (word : string) : bool :=
  existsb (String.eqb word) l.

(** The constant [newFavorites] of [toggleFavorite]. *)
Definition newFavorites (favorites : list string) (word : string) : list string :=
  if includes favorites word
  then List.filter (fun w => negb (String.eqb w word)) favorites
  else (favorites ++ [word])%list.

Definition toggleFavorite (st : App.State) (word : string) : Update * list Event :=
  (App.setFavorites (newFavorites (App.favorites st) word),
   [LocalStorageSet "dictionaryFavorites"]).

(** ** The search (README 433-444, App 140-151) *)

(** [handleSearch(searchWord)], called on the state of the current render.
    The three fetchers run in parallel; they write different state
    variables, but for the cache, which the bulk translation and the head
    word translation both write: their updates are applied in the order the
    program lists them.  (In the browser the write that lands last wins, and
    which one that is depends on the network; nothing proved below depends
    on it.) *)
Definition handleSearch (st : App.State) (w : SearchWorld) (searchWord : string)
    : App.State * list Event :=
  if negb (truthy (trim searchWord)) then (st, [])
  else
    let recorded := addToHistory st searchWord in
    let looked := fetchDefinitions st (dictionary w) (translations w) searchWord in
    let related :=
      fetchRelatedWords searchWord (synonyms w) (triggers w) (adjectives w) in
    let translated := fetchTranslation st (translations w) searchWord in
    (fst translated
       (fst related (fst looked (fst recorded (App.setWord searchWord st)))),
     (snd recorded ++ snd looked ++ snd related ++ snd translated)%list).

(** The click on the star, on the state of the current render. *)
Definition clickFavorite (st : App.State) (word : string) : App.State :=
  fst (toggleFavorite st word) st.

(** ** Notions the statements use *)

(** The state of the first render ([useState] defaults, README 113-128). *)
Definition initialState : App.State :=
  App.mk "" [] [] None [] [] en false None empty [] [].

(** The same state with another language. *)
Definition withLanguage (l : Language) (s : App.State) : App.State :=
  let '(App.mk w d r t f h _ lo e c dt et) := s in
  App.mk w d r t f h l lo e c dt et.

(** The arguments of the [translateText] calls among some events. *)
Definition translateCallsOf (es : list Event) : list (string * option string) :=
  flat_map (fun e => match e with
                     | TranslateCall text cacheKey => [(text, cacheKey)]
                     | _ => []
                     end) es.

(** The text of one definition, with the key the bulk translation builds
    for it. *)
Definition definitionOf (word partOfSpeech : string) (d : nat * Def.t)
    : list (string * string) :=
  [(defKey word partOfSpeech (fst d), Def.definition (snd d))].

(** Every definition text of every meaning of every entry, with its key. *)
Definition definitionTexts (data : list Entry.t) : list (string * string) :=
  flat_map (fun def =>
    flat_map (fun meaning =>
      flat_map (definitionOf (Entry.word def) (Meaning.partOfSpeech meaning))
               (indexed (Meaning.definitions meaning)))
      (Entry.meanings def)) data.

(** The example of one definition, when it has one that is not empty. *)
Definition exampleOf (word partOfSpeech : string) (d : nat * Def.t)
    : list (string * string) :=
  match Def.example (snd d) with
  | Some example =>
      if truthy example then [(exampleKey word partOfSpeech (fst d), example)] else []
  | None => []
  end.

(** Every example text of every meaning of every entry, with its key. *)
Definition exampleTexts (data : list Entry.t) : list (string * string) :=
  flat_map (fun def =>
    flat_map (fun meaning =>
      flat_map (exampleOf (Entry.word def) (Meaning.partOfSpeech meaning))
               (indexed (Meaning.definitions meaning)))
      (Entry.meanings def)) data.

(** A call [translateText(text, key)] for an entry [(key, text)]. *)
Definition asCall (kv : string * string) : string * option string :=
  (snd kv, Some (fst kv)).

(** The merge policy in the words of the specification: keep the first
    occurrence of each word text. *)
Fixpoint keepFirst (seen : list string) (l : list RelatedWord.t)
    : list RelatedWord.t :=
  match l with
  | [] => []
  | x :: r =>
      if existsb (String.eqb (RelatedWord.word x)) seen
      then keepFirst seen r
      else x :: keepFirst (RelatedWord.word x :: seen) r
  end.

(** Sorted by score, descending. *)
Definition descending (l : list RelatedWord.t) : Prop :=
  StronglySorted (fun a b => (RelatedWord.score b <= RelatedWord.score a)%Z) l.

(** The related words of one score, in the order they stand. *)
Definition withScore (s : Z) (l : list RelatedWord.t) : list RelatedWord.t :=
  List.filter (fun x => (RelatedWord.score x =? s)%Z) l.

(** Case-insensitive equality of two words, as [addToHistory] tests it. *)
Definition sameWord (a b : string) : bool :=
  String.eqb (toLowerCase a) (toLowerCase b).

(** Searches made one after the other, each on the state the previous one
    left (the dependency lists of README 431 and 444 renew [addToHistory]
    and [handleSearch] whenever the history changes). *)
Definition searchAll (st : App.State) (searches : list (SearchWorld * string))
    : App.State :=
  fold_left (fun s ws => fst (handleSearch s (fst ws) (snd ws))) searches st.

(** A string made of white space only (the empty one included). *)
Definition blank (s : string) : bool :=
  forallb isWhiteSpace (list_ascii_of_string s).

(** The favourites as a set of words. *)
Definition favoriteSet (favorites : list string) : gset string :=
  list_to_set favorites.

(** A request of [fetchRelatedWords] that does not deliver an array. *)
Definition wordsFailed (r : WordsReply) : bool :=
  match r with
  | Words _ => false
  | _ => true
  end.

(** A dictionary lookup that does not deliver entries. *)
Definition lookupFails (r : DictionaryReply) : bool :=
  match r with
  | Parsed _ => false
  | _ => true
  end.

(** The message a failed lookup shows. *)
Definition lookupMessage (language : Language) (r : DictionaryReply) : string :=
  match r with
  | FetchRejected err | JsonRejected err => thrownMessage err
  | HttpError status =>
      if (status =? 404)%Z then wordNotFound language else "Failed to fetch data"
  | Parsed _ => ""
  end.

(** A translation call that fails, in the words of the specification: a
    network error, a malformed response or a non-success status, on either
    of the two requests. *)
Definition translationFails (w : TranslateWorld) : bool :=
  match bare w with
  | None | Some false => true
  | Some true =>
      match reply w with
      | None => true
      | Some (ok, body) =>
          negb ok || match usableText body with Some _ => false | None => true end
      end
  end.

(** The failures [translateText] looks for: it never reads the status of the
    second response. *)
Definition translationFailsSeen (w : TranslateWorld) : bool :=
  match bare w with
  | None | Some false => true
  | Some true =>
      match reply w with
      | None => true
      | Some (_, body) =>
          match usableText body with Some _ => false | None => true end
      end
  end.

(** The translation service out of quota: status 429, and a body that
    carries a notice where the translation would be. *)
Definition quotaNotice : string :=
  "MYMEMORY WARNING: YOU USED ALL AVAILABLE FREE TRANSLATIONS FOR TODAY".

Definition outOfQuota : TranslateWorld :=
  {| clock := 0; bare := Some true;
     reply := Some (false, ResponseData (Some quotaNotice));
     clock_store := 0 |}.

(** Worlds and data for the examples. *)
Definition offline : TranslateWorld :=
  {| clock := 0; bare := None; reply := None; clock_store := 0 |}.

Definition answering (translatedText : string) (now : Z) : TranslateWorld :=
  {| clock := now; bare := Some true;
     reply := Some (true, ResponseData (Some translatedText));
     clock_store := now |}.

Definition offlineAt (now : Z) : TranslateWorld :=
  {| clock := now; bare := None; reply := None; clock_store := now |}.

Definition silentWorld : SearchWorld :=
  {| dictionary := FetchRejected (ErrorObject "Failed to fetch");
     synonyms := WordsRejected; triggers := WordsRejected;
     adjectives := WordsRejected; translations := fun _ => offline |}.

Definition runEntry : Entry.t :=
  Entry.mk "run"
    [Meaning.mk "verb"
       [Def.mk "To move swiftly." (Some "He ran to the door.");
        Def.mk "To flow." None];
     Meaning.mk "noun" [Def.mk "An act of running." (Some "")]].

(** Two entries of one head word that share a part of speech. *)
Definition bankEntries : list Entry.t :=
  [Entry.mk "bank" [Meaning.mk "noun" [Def.mk "An institution." None]];
   Entry.mk "bank" [Meaning.mk "noun" [Def.mk "The edge of a river." None]]].

(** ** More of the caching revision *)

(** [obj[key]] on a plain object used as a dictionary; [None] is
    [undefined].  (The keys read below hold a hyphen and a digit, so none of
    them names a property of [Object.prototype].) *)
Fixpoint obj_get (o : JsObject) (k : string) : option string :=
  match o with
  | [] => None
  | (k', v) :: r => if String.eqb k' k then Some v else obj_get r k
  end.

(** What a callback does when a branch is not taken. *)
Definition nothing : Update * list Event := (fun s => s, []).

(** [changeLanguage(lang)] (README 488-506).  [fetchTranslation] and
    [translateDefinitionsAndExamples] are the callbacks of the render in
    which the button was drawn: they read the language of that render, not
    [lang], which the next render will show. *)
Definition changeLanguage (st : App.State) (worldOf : string -> TranslateWorld)
    (lang : Language) : Update * list Event :=
  let translated :=
    if truthy (App.word st) then fetchTranslation st worldOf (App.word st)
    else nothing in
  let bulk :=
    if truthy (App.word st)
    then match App.definitions st with
         | [] => nothing
         | _ :: _ => translateDefinitionsAndExamples st worldOf (App.definitions st)
         end
    else nothing in
  (fun s =>
     fst bulk
       (fst translated
          (App.setExampleTranslations []
             (App.setDefinitionTranslations [] (withLanguage lang s)))),
   (LocalStorageSet "dictionaryLanguage" :: snd translated ++ snd bulk)%list).

(** The click on a language button, on the state of the current render. *)
Definition clickLanguage (st : App.State) (worldOf : string -> TranslateWorld)
    (lang : Language) : App.State :=
  fst (changeLanguage st worldOf lang) st.

(** A value kept in [localStorage] under one key, as [loadPersistedData]
    meets it. *)
Inductive Stored (A : Type) :=
| Missing          (** [getItem] gives [null] or the empty string *)
| Corrupt          (** [JSON.parse] throws *)
| Holds (a : A).   (** [JSON.parse] gives [a] *)

Arguments Missing {A}.
Arguments Corrupt {A}.
Arguments Holds {A} a.

(** The persisted keys that feed the state modelled here (the theme, read
    between the history and the language, is a raw string that cannot make
    the load fail).  A stored language is one of the two the type has. *)
Record Persisted := {
  savedFavorites : Stored (list string);
  savedHistory : Stored (list string);
  savedLanguage : option Language;
  savedTranslations : Stored (gmap string Cache.entry)
}.

(** One [if (saved) set(JSON.parse(saved))] of the load, followed by the
    rest of the [try] block: a value that does not parse throws into the
    [catch], which logs, and the rest is not run. *)
Definition restore {A : Type} (saved : Stored A) (set : A -> Update)
    (rest : Update * list Event) : Update * list Event :=
  match saved with
  | Missing => rest
  | Corrupt => (fun s => s, [ConsoleError "Error loading persisted data:"])
  | Holds a => (fun s => fst rest (set a s), snd rest)
  end.

(** [loadPersistedData()] (README 212-228). *)
Definition loadPersistedData (p : Persisted) : Update * list Event :=
  restore (savedFavorites p) App.setFavorites
    (restore (savedHistory p) App.setHistory
       (match savedLanguage p with
        | Some l =>
            (fun s => fst (restore (savedTranslations p) App.setTranslationCache nothing)
                          (withLanguage l s),
             snd (restore (savedTranslations p) App.setTranslationCache nothing))
        | None => restore (savedTranslations p) App.setTranslationCache nothing
        end)).

(** *** What the panels compute *)

(** One element of [phonetics] (README 74-77). *)
Module Phonetic.
Record t := mk { text : option string; audio : option string }.
End Phonetic.

(** Truthiness of an optional string property. *)
Definition present (o : option string) : bool :=
  match o with
  | Some s => truthy s
  | None => false
  end.

(** [phonetics.find(p => p.audio && p.text) || phonetics.find(p => p.text)]
    (README 590-591, App 307-308). *)
Definition shownPhonetic (phonetics : list Phonetic.t) : option Phonetic.t :=
  match List.find (fun p => present (Phonetic.audio p) && present (Phonetic.text p))
                  phonetics with
  | Some p => Some p
  | None => List.find (fun p => present (Phonetic.text p)) phonetics
  end.

(** [phonetics.find(p => p.audio)?.audio] (README 592, App 309). *)
Definition shownAudio (phonetics : list Phonetic.t) : option string :=
  match List.find (fun p => present (Phonetic.audio p)) phonetics with
  | Some p => Phonetic.audio p
  | None => None
  end.

(** [def.example], as a condition. *)
Definition hasExample (d : Def.t) : bool := present (Def.example d).

(** The keys [(exampleKey, defKey)] the Examples panel reads for the cards
    of one meaning (README 890-895): the index is the one [map] gives after
    [filter(def => def.example)]. *)
Definition examplesPanelKeys (word : string) (meaning : Meaning.t)
    : list (string * string) :=
  map (fun d => (exampleKey word (Meaning.partOfSpeech meaning) (fst d),
                 defKey word (Meaning.partOfSpeech meaning) (fst d)))
      (indexed (List.filter hasExample (Meaning.definitions meaning))).

(** The definitions the Examples panel shows for one meaning, card by
    card. *)
Definition examplesPanelCards (meaning : Meaning.t) : list Def.t :=
  List.filter hasExample (Meaning.definitions meaning).

(** The keys [(defKey, exampleKey)] a meaning card builds for the
    definitions it shows (README 692-694): the index is the one [map] gives
    after [slice(0, 5)]. *)
Definition meaningCardKeys (word : string) (meaning : Meaning.t)
    : list (string * string) :=
  map (fun d => (defKey word (Meaning.partOfSpeech meaning) (fst d),
                 exampleKey word (Meaning.partOfSpeech meaning) (fst d)))
      (indexed (firstn 5 (Meaning.definitions meaning))).

(** [definitionTranslations[defKey]] as the cards show it (README 712-717):
    under Portuguese, when the value is truthy. *)
Definition shownTranslation (st : App.State) (o : JsObject) (key : string)
    : option string :=
  match App.language st with
  | en => None
  | ptBR =>
      match obj_get o key with
      | Some t => if truthy t then Some t else None
      | None => None
      end
  end.

(** [relatedWords.slice(0, 50)] and [relatedWords.slice(0, 10)] of the
    thesaurus panel (README 814, 857; App 444, 459). *)
Definition wordCloud (st : App.State) : list RelatedWord.t :=
  firstn 50 (App.relatedWords st).

Definition similarityGraph (st : App.State) : list RelatedWord.t :=
  firstn 10 (App.relatedWords st).

(** [Math.min(3, Math.floor(word.score / 200))] (README 815, App 447). *)
Definition strength (score : Z) : Z := Z.min 3 (score / 200).

(** [sizeClasses[strength]] (README 816-821, 826); [None] is [undefined],
    what a negative index reads. *)
Definition sizeClasses : list string :=
  ["text-sm"; "text-base"; "text-lg"; "text-xl"].

Definition sizeClass (score : Z) : option string :=
  if (strength score <? 0)%Z then None
  else nth_error sizeClasses (Z.to_nat (strength score)).

(** What the main pane shows (README 1093-1095, App 616-618, 657): the
    error when [error] is truthy, else the first entry when there is one,
    else the welcome text. *)
Inductive View :=
| ErrorView (message : string)
| ContentView (firstDef : Entry.t)
| WelcomeView.

Definition mainView (st : App.State) : View :=
  match App.error st with
  | Some message =>
      if truthy message then ErrorView message
      else match App.definitions st with
           | firstDef :: _ => ContentView firstDef
           | [] => WelcomeView
           end
  | None =>
      match App.definitions st with
      | firstDef :: _ => ContentView firstDef
      | [] => WelcomeView
      end
  end.

(** No two entries equal up to case. *)
Definition distinctWords (history : list string) : Prop :=
  NoDup (map toLowerCase history).

(** The cache of a render differs from an earlier one by at most one
    binding. *)
Definition atMostOneMore (before after : gmap string Cache.entry) : Prop :=
  after = before \/ exists k v t, after = cache_store before k v t.

(** A world in which the service answers every key with the same text. *)
Definition allAnswering (translatedText : string) (now : Z) : string -> TranslateWorld :=
  fun _ => answering translatedText now.

(** ** The plain revision ([src/src/App.tsx]) *)

(** The events the two revisions share. *)
Definition SharedEvent : Type := Event.

(** What differs from the caching revision: three languages, a translation
    that is a bare string, [fetchTranslation] that asks another service and
    keeps no cache, and the dependency list of [handleSearch]. *)
Module Plain.

(** [type Language = 'en' | 'pt' | 'es'] (App 35). *)
Inductive Language := en | pt | es.

Definition sameLanguage (a b : Language) : bool :=
  match a, b with
  | en, en | pt, pt | es, es => true
  | _, _ => false
  end.

(** The React state (App 39-48), without the display flags.  [translation]
    is [None] when [setTranslation] was given [undefined]. *)
Record State := mk {
  word : string;
  definitions : list Entry.t;
  relatedWords : list RelatedWord.t;
  translation : option string;
  favorites : list string;
  history : list string;
  language : Language;
  loading : bool;
  error : option string
}.

Definition setWord (v : string) (s : State) : State :=
  let '(mk _ d r t f h l lo e) := s in mk v d r t f h l lo e.
Definition setDefinitions (v : list Entry.t) (s : State) : State :=
  let '(mk w _ r t f h l lo e) := s in mk w v r t f h l lo e.
Definition setRelatedWords (v : list RelatedWord.t) (s : State) : State :=
  let '(mk w d _ t f h l lo e) := s in mk w d v t f h l lo e.
Definition setTranslation (v : option string) (s : State) : State :=
  let '(mk w d r _ f h l lo e) := s in mk w d r v f h l lo e.
Definition setHistory (v : list string) (s : State) : State :=
  let '(mk w d r t f _ l lo e) := s in mk w d r t f v l lo e.
Definition setLanguage (v : Language) (s : State) : State :=
  let '(mk w d r t f h _ lo e) := s in mk w d r t f h v lo e.
Definition setLoading (v : bool) (s : State) : State :=
  let '(mk w d r t f h l _ e) := s in mk w d r t f h l v e.
Definition setError (v : option string) (s : State) : State :=
  let '(mk w d r t f h l lo _) := s in mk w d r t f h l lo v.

(** The state of the first render. *)
Definition initial : State := mk "" [] [] (Some "") [] [] en false None.

(** The events of this revision: those of the other one, and the request to
    the translation service (POST libretranslate.de/translate with [q],
    [source], [target], App 122-130). *)
Inductive Event :=
| Did (e : SharedEvent)
| FetchLibre (q source target : string).

Definition Update : Type := State -> State.

(** The answer to the translation request, as App 132-133 reads it. *)
Inductive LibreReply :=
| LibreRejected      (** [fetch] or [response.json()] rejects *)
| LibreNull          (** [data] is null: reading [data.translatedText] throws *)
| LibreBody (translatedText : option string).
                     (** [None]: the property is absent *)

Record World := {
  dictionary : DictionaryReply;
  synonyms : WordsReply;
  triggers : WordsReply;
  adjectives : WordsReply;
  libre : LibreReply
}.

(** [fetchDefinitions(word)] (App 77-96). *)
Definition fetchDefinitions (r : DictionaryReply) (word : string)
    : Update * list Event :=
  let failed (message : string) : Update :=
    fun s =>
      setLoading false
        (setDefinitions [] (setError (Some message)
           (setError None (setLoading true s)))) in
  let sent := [Did (Fetch (DictionaryEntries word))] in
  match r with
  | FetchRejected err => (failed (thrownMessage err), sent)
  | HttpError status =>
      (failed (if (status =? 404)%Z then "Word not found"
               else "Failed to fetch data"), sent)
  | JsonRejected err => (failed (thrownMessage err), sent)
  | Parsed data =>
      (fun s =>
         setLoading false
           (setDefinitions data (setError None (setLoading true s))),
       sent)
  end.

(** [fetchRelatedWords(word)] (App 98-115). *)
Definition fetchRelatedWords (word : string)
    (synonyms triggers adjectives : WordsReply) : Update * list Event :=
  let sent := [Did (Fetch (DatamuseWords "rel_syn" word));
               Did (Fetch (DatamuseWords "rel_trg" word));
               Did (Fetch (DatamuseWords "rel_jjb" word))] in
  match synonyms, triggers, adjectives with
  | Words s, Words t, Words a => (setRelatedWords (combined s t a), sent)
  | _, _, _ =>
      (fun s => s,
       (sent ++ [Did (ConsoleError "Failed to load related words:")])%list)
  end.

(** [language === 'pt' ? 'pt' : 'es'] (App 121). *)
Definition targetLang (language : Language) : string :=
  match language with
  | pt => "pt"
  | _ => "es"
  end.

(** [fetchTranslation(word)] (App 117-137), with [language] as the callback
    closes over it. *)
Definition fetchTranslation (st : State) (r : LibreReply) (word : string)
    : Update * list Event :=
  match language st with
  | en => (fun s => s, [])
  | _ =>
      let sent := [FetchLibre word "en" (targetLang (language st))] in
      match r with
      | LibreBody translatedText => (setTranslation translatedText, sent)
      | _ => (fun s => s, (sent ++ [Did (ConsoleError "Translation failed:")])%list)
      end
  end.

(** [addToHistory(word)] (App 153-161). *)
Definition addToHistory (st : State) (word : string) : Update * list Event :=
  (setHistory (newHistory (history st) word),
   [Did (LocalStorageSet "dictionaryHistory")]).

(** [handleSearch(searchWord)] (App 140-151).  [st] is the state of the
    render that created the callback: [addToHistory] and [fetchTranslation]
    are the callbacks of that render. *)
Definition handleSearch (st : State) (w : World) (searchWord : string)
    : Update * list Event :=
  if negb (truthy (trim searchWord)) then (fun s => s, [])
  else
    let recorded := addToHistory st searchWord in
    let looked := fetchDefinitions (dictionary w) searchWord in
    let related :=
      fetchRelatedWords searchWord (synonyms w) (triggers w) (adjectives w) in
    let translated := fetchTranslation st (libre w) searchWord in
    (fun s =>
       fst translated (fst related (fst looked (fst recorded (setWord searchWord s)))),
     (snd recorded ++ snd looked ++ snd related ++ snd translated)%list).

(** [changeLanguage(lang)] (App 203-207); [fetchTranslation] is the
    callback of the render in which the button was drawn. *)
Definition changeLanguage (st : State) (r : LibreReply) (lang : Language)
    : Update * list Event :=
  let translated :=
    if truthy (word st) then fetchTranslation st r (word st) else (fun s => s, []) in
  (fun s => fst translated (setLanguage lang s),
   Did (LocalStorageSet "dictionaryLanguage") :: snd translated).

(** [translation && language !== 'en'] (App 354): the translation the word
    display shows. *)
Definition shownTranslation (st : State) : option string :=
  match language st with
  | en => None
  | _ =>
      match translation st with
      | Some t => if truthy t then Some t else None
      | None => None
      end
  end.

(** A session: the state on screen, and the state of the render that
    created the [handleSearch] the buttons call.  [useCallback] keeps
    [handleSearch] until one of [fetchDefinitions], [fetchRelatedWords],
    [fetchTranslation] changes (App 151); the first two never do (their
    lists are empty, App 96 and 115), the third does when [language] does
    (App 137). *)
Record Session := { shown : State; made : State }.

Definition start (s : State) : Session := {| shown := s; made := s |}.

(** A search leaves the language as it is, so [handleSearch] is kept. *)
Definition search (ss : Session) (w : World) (searchWord : string) : Session :=
  {| shown := fst (handleSearch (made ss) w searchWord) (shown ss);
     made := made ss |}.

(** A click on a language button: [changeLanguage] is renewed with every
    word and language (App 207), so it reads the state on screen; the next
    render renews [handleSearch] when the language is another one. *)
Definition switchLanguage (ss : Session) (r : LibreReply) (lang : Language)
    : Session :=
  let next := fst (changeLanguage (shown ss) r lang) (shown ss) in
  {| shown := next;
     made := if sameLanguage lang (language (shown ss)) then made ss else next |}.

Definition searches (ss : Session) (l : list (World * string)) : Session :=
  fold_left (fun acc ws => search acc (fst ws) (snd ws)) l ss.

(** The last word of a list of searches that is not blank. *)
Definition lastSearched (l : list (World * string)) : option string :=
  fold_left (fun acc ws => if blank (snd ws) then acc else Some (snd ws)) l None.

Definition quiet : World :=
  {| dictionary := FetchRejected (ErrorObject "Failed to fetch");
     synonyms := WordsRejected; triggers := WordsRejected;
     adjectives := WordsRejected; libre := LibreRejected |}.

End Plain.

(** * Properties *)

(** ** The translation cache *)

Lemma cache_lookup_store (c : gmap string Cache.entry) (k v : string) (t t' : Z) :
  cache_lookup (cache_store c k v t) k t'
  = if (t' - t <? DAY_MS)%Z then Some v else None.
Proof.
  unfold cache_lookup, cache_store. rewrite lookup_insert_eq. reflexivity.
Qed.

Lemma cache_lookup_store_other (c : gmap string Cache.entry) (k k' v : string)
    (t t' : Z) :
  k <> k' -> cache_lookup (cache_store c k v t) k' t' = cache_lookup c k' t'.
Proof.
  intros Hne. unfold cache_lookup, cache_store.
  rewrite lookup_insert_ne by exact Hne. reflexivity.
Qed.

(** A call of [translateText] writes nothing, or writes the cache it read
    with one more binding. *)
Lemma translateText_write (language : Language) (c : gmap string Cache.entry)
    (w : TranslateWorld) (text : string) (cacheKey : option string) :
  cacheWrite (translateText language c w text cacheKey) = None
  \/ exists v,
       cacheWrite (translateText language c w text cacheKey)
       = Some (cache_store c (js_or cacheKey text) v (clock_store w)).
Proof.
  unfold translateText. destruct language; [left; reflexivity |].
  destruct (cache_lookup c (js_or cacheKey text) (clock w)); [left; reflexivity |].
  destruct (bare w) as [[|]|]; try (left; reflexivity).
  destruct (reply w) as [[ok body]|]; [| left; reflexivity].
  destruct (usableText body) as [v|]; [right; exists v | left]; reflexivity.
Qed.

(** No call of [translateText] removes a binding from the cache. *)
Lemma translateText_keeps_entries (language : Language)
    (c : gmap string Cache.entry) (w : TranslateWorld) (text : string)
    (cacheKey : option string) (k : string) :
  is_Some (c !! k) ->
  is_Some (cacheAfter c (translateText language c w text cacheKey) !! k).
Proof.
  intros Hk. unfold cacheAfter.
  destruct (translateText_write language c w text cacheKey) as [-> | [v ->]].
  - exact Hk.
  - unfold cache_store. destruct (decide (js_or cacheKey text = k)) as [-> | Hne].
    + rewrite lookup_insert_eq. eauto.
    + rewrite lookup_insert_ne by exact Hne. exact Hk.
Qed.

(** A hit: the cached text comes back after one cache read, and nothing is
    sent. *)
Lemma translateText_hit (c : gmap string Cache.entry) (w : TranslateWorld)
    (text : string) (cacheKey : option string) (v : string) :
  cache_lookup c (js_or cacheKey text) (clock w) = Some v ->
  translateText ptBR c w text cacheKey
  = {| returned := v; cacheWrite := None;
       effects := [ReadCache (js_or cacheKey text)] |}.
Proof. intros H. unfold translateText. rewrite H. reflexivity. Qed.

(** A miss answered by the service: the translation is returned and stored
    under the key, with the time of the write. *)
Lemma translateText_miss_stores (c : gmap string Cache.entry) (w : TranslateWorld)
    (text : string) (cacheKey : option string) (ok : bool) (v : string) :
  cache_lookup c (js_or cacheKey text) (clock w) = None ->
  bare w = Some true ->
  reply w = Some (ok, ResponseData (Some v)) ->
  truthy v = true ->
  returned (translateText ptBR c w text cacheKey) = v
  /\ cacheWrite (translateText ptBR c w text cacheKey)
     = Some (cache_store c (js_or cacheKey text) v (clock_store w)).
Proof.
  intros Hmiss Hbare Hreply Hv. unfold translateText.
  rewrite Hmiss, Hbare, Hreply. simpl. rewrite Hv. split; reflexivity.
Qed.

(** C1, as the code has it.  After [store(k, v, t)], a lookup of [k] at a
    time [t'] with [t' - t < 24h] returns [v], and the translation client
    then answers [v] after reading the cache, without a request; a lookup
    at a time with [t' - t >= 24h] is a miss.  The entry is not purged: it
    is still bound after the miss, and after any later call of the
    translation client (which can only overwrite it). *)
Theorem cache_roundtrip_expiry (c : gmap string Cache.entry) (k v : string)
    (t t' : Z) :
  ((t' - t < DAY_MS)%Z ->
     cache_lookup (cache_store c k v t) k t' = Some v
     /\ forall (w : TranslateWorld) (text : string) (cacheKey : option string),
          js_or cacheKey text = k -> clock w = t' ->
          translateText ptBR (cache_store c k v t) w text cacheKey
          = {| returned := v; cacheWrite := None; effects := [ReadCache k] |})
  /\ ((DAY_MS <= t' - t)%Z ->
        cache_lookup (cache_store c k v t) k t' = None
        /\ cache_store c k v t !! k = Some (Cache.mk v t))
  /\ (forall (language : Language) (w : TranslateWorld) (text : string)
             (cacheKey : option string),
        is_Some (cacheAfter (cache_store c k v t)
                   (translateText language (cache_store c k v t) w text cacheKey)
                 !! k)).
Proof.
  split; [| split].
  - intros Hlt.
    assert (Hhit : cache_lookup (cache_store c k v t) k t' = Some v).
    { rewrite cache_lookup_store.
      destruct (Z.ltb_spec (t' - t) DAY_MS) as [_ | Hge]; [reflexivity | lia]. }
    split; [exact Hhit |].
    intros w text cacheKey Hkey Hclock.
    rewrite <- Hkey. apply translateText_hit. rewrite Hkey, Hclock. exact Hhit.
  - intros Hge. split.
    + rewrite cache_lookup_store.
      destruct (Z.ltb_spec (t' - t) DAY_MS) as [Hlt | _]; [lia | reflexivity].
    + unfold cache_store. apply lookup_insert_eq.
  - intros language w text cacheKey. apply translateText_keeps_entries.
    unfold cache_store. rewrite lookup_insert_eq. eauto.
Qed.

Lemma cache_roundtrip_expiry_witness :
  cache_lookup (cache_store empty "hello" "ola" 0) "hello" 1000 = Some "ola"
  /\ cache_lookup (cache_store empty "hello" "ola" 0) "hello" (DAY_MS + 1) = None.
Proof.
  split.
  - apply (cache_roundtrip_expiry empty "hello" "ola" 0 1000). reflexivity.
  - apply (cache_roundtrip_expiry empty "hello" "ola" 0 (DAY_MS + 1)).
    vm_compute. discriminate.
Defined.

(** C1 as stated fails at the boundary: exactly 24 hours after the store the
    lookup is a miss, and the translation client goes to the network. *)
Lemma cache_roundtrip_at_24h_misses :
  (DAY_MS - 0 <= DAY_MS)%Z
  /\ cache_lookup (cache_store empty "hello" "ola" 0) "hello" DAY_MS = None
  /\ networkCalls
       (effects (translateText ptBR (cache_store empty "hello" "ola" 0)
                   (answering "ola" DAY_MS) "hello" None)) = 2.
Proof. split; [vm_compute; discriminate | split; reflexivity]. Qed.

(** ** The translation client *)

(** C7.  With English as the language, [translateText] returns the text
    unchanged, whatever the key, the cache and the world: it sends no
    request, does not read the cache and does not write it. *)
Theorem translateText_english (c : gmap string Cache.entry) (w : TranslateWorld)
    (text : string) (cacheKey : option string) :
  returned (translateText en c w text cacheKey) = text
  /\ networkCalls (effects (translateText en c w text cacheKey)) = 0
  /\ cacheReads (effects (translateText en c w text cacheKey)) = 0
  /\ effects (translateText en c w text cacheKey) = []
  /\ cacheWrite (translateText en c w text cacheKey) = None.
Proof. repeat split. Qed.

(** Every failure [translateText] looks for gives the original text back
    and leaves the cache as it was. *)
Lemma translateText_failure_seen (language : Language)
    (c : gmap string Cache.entry) (w : TranslateWorld) (text : string)
    (cacheKey : option string) :
  cache_lookup c (js_or cacheKey text) (clock w) = None ->
  translationFailsSeen w = true ->
  returned (translateText language c w text cacheKey) = text
  /\ cacheWrite (translateText language c w text cacheKey) = None.
Proof.
  intros Hmiss Hfail. unfold translateText, translationFailsSeen in *.
  destruct language; [split; reflexivity |].
  rewrite Hmiss.
  destruct (bare w) as [[|]|]; try (split; reflexivity).
  destruct (reply w) as [[ok body]|]; [| split; reflexivity].
  destruct (usableText body); [discriminate | split; reflexivity].
Qed.

(** An expired entry and no network: the original text comes back, nothing
    is written, and the entry is still in the cache. *)
Example translateText_expired_offline :
  translateText ptBR (cache_store empty "hello" "ola" 0) (offlineAt DAY_MS)
                "hello" None
  = {| returned := "hello"; cacheWrite := None;
       effects := [ReadCache "hello"; Fetch MyMemoryBare;
                   ConsoleError "Translation failed:"] |}.
Proof. reflexivity. Qed.

(** C3 at the failing input.  The service is out of quota: the second
    response has a non-success status, and its body carries a notice.
    [translateText] returns the notice instead of the original text, and
    stores it in the cache. *)
Theorem translateText_trusts_failed_reply :
  translationFails outOfQuota = true
  /\ returned (translateText ptBR empty outOfQuota "hello" None) = quotaNotice
  /\ returned (translateText ptBR empty outOfQuota "hello" None) <> "hello"
  /\ cacheAfter empty (translateText ptBR empty outOfQuota "hello" None) !! "hello"
     = Some (Cache.mk quotaNotice 0).
Proof.
  split; [reflexivity |]. split; [reflexivity |]. split; [discriminate |].
  vm_compute. reflexivity.
Qed.

(** ** Blank input *)

Lemma trimEnd_blank (s : string) : trimEnd s = "" <-> blank s = true.
Proof.
  unfold blank. induction s as [| c r IH]; simpl.
  - split; reflexivity.
  - destruct (trimEnd r) eqn:Hr.
    + destruct (isWhiteSpace c); simpl.
      * split; intros _; [apply IH |]; reflexivity.
      * split; discriminate.
    + split; [discriminate |]. intros H.
      apply andb_true_iff in H as [_ H]. apply IH in H. discriminate.
Qed.

Lemma blank_trimStart (s : string) : blank (trimStart s) = blank s.
Proof.
  unfold blank. induction s as [| c r IH]; simpl; [reflexivity |].
  destruct (isWhiteSpace c) eqn:Hc; simpl.
  - exact IH.
  - rewrite Hc. reflexivity.
Qed.

Lemma trim_blank (s : string) : trim s = "" <-> blank s = true.
Proof. unfold trim. rewrite trimEnd_blank, blank_trimStart. reflexivity. Qed.

Lemma truthy_trim (s : string) : truthy (trim s) = negb (blank s).
Proof.
  unfold truthy. destruct (String.eqb_spec (trim s) "") as [He | Hne].
  - apply trim_blank in He. rewrite He. reflexivity.
  - destruct (blank s) eqn:Hb; [| reflexivity].
    apply trim_blank in Hb. contradiction.
Qed.

(** C8.  On a blank input (empty or made of white space only)
    [handleSearch] returns at once: the state is the one it was called on,
    history, definitions, related words and translation included, and no
    request is sent (there is no event at all). *)
Theorem handleSearch_blank (st : App.State) (w : SearchWorld) (searchWord : string) :
  blank searchWord = true ->
  handleSearch st w searchWord = (st, []).
Proof.
  intros Hb. unfold handleSearch. rewrite truthy_trim, Hb. reflexivity.
Qed.

Lemma handleSearch_blank_witness :
  handleSearch initialState silentWorld "   " = (initialState, []).
Proof. apply (handleSearch_blank initialState silentWorld "   "). reflexivity. Defined.

(** ** What each callback leaves alone *)

Lemma writeCache_frame (r : Translated) (s : App.State) :
  writeCache r s = App.setTranslationCache (cacheAfter (App.translationCache s) r) s.
Proof.
  unfold writeCache, cacheAfter. destruct (cacheWrite r); [reflexivity |].
  destruct s; reflexivity.
Qed.

Lemma writeCaches_frame (results : list (string * Translated)) (s : App.State) :
  exists c, writeCaches results s = App.setTranslationCache c s.
Proof.
  unfold writeCaches. revert s.
  induction results as [| r rs IH]; intros s; simpl.
  - exists (App.translationCache s). destruct s; reflexivity.
  - destruct (IH (writeCache (snd r) s)) as [c Hc]. exists c.
    rewrite Hc, writeCache_frame. destruct s; reflexivity.
Qed.

(** The bulk translation writes the cache and the two translation objects,
    nothing else. *)
Lemma translateDefinitionsAndExamples_frame (st : App.State)
    (worldOf : string -> TranslateWorld) (data : list Entry.t) (s : App.State) :
  exists c dt et,
    fst (translateDefinitionsAndExamples st worldOf data) s
    = App.setExampleTranslations et
        (App.setDefinitionTranslations dt (App.setTranslationCache c s)).
Proof.
  unfold translateDefinitionsAndExamples. destruct (App.language st); simpl.
  - exists (App.translationCache s), (App.definitionTranslations s),
      (App.exampleTranslations s). destruct s; reflexivity.
  - match goal with
    | |- context [writeCaches ?ex (writeCaches ?de s)] =>
        destruct (writeCaches_frame de s) as [c1 H1];
        destruct (writeCaches_frame ex (writeCaches de s)) as [c2 H2];
        rewrite H2, H1
    end.
    eexists c2, _, _. destruct s; reflexivity.
Qed.

(** A lookup writes [loading], [error], [definitions] and, through the bulk
    translation, the cache and the translation objects. *)
Lemma fetchDefinitions_frame (st : App.State) (r : DictionaryReply)
    (worldOf : string -> TranslateWorld) (word : string) (s : App.State) :
  let s' := fst (fetchDefinitions st r worldOf word) s in
  App.word s' = App.word s
  /\ App.relatedWords s' = App.relatedWords s
  /\ App.translation s' = App.translation s
  /\ App.favorites s' = App.favorites s
  /\ App.history s' = App.history s
  /\ App.language s' = App.language s.
Proof.
  destruct r; simpl; try (destruct s; repeat split; reflexivity).
  destruct (translateDefinitionsAndExamples_frame st worldOf data
              (App.setDefinitions data (App.setError None (App.setLoading true s))))
    as (c & dt & et & ->).
  destruct s; repeat split; reflexivity.
Qed.

Lemma fetchRelatedWords_frame (word : string) (syn trg adj : WordsReply)
    (s : App.State) :
  exists related,
    fst (fetchRelatedWords word syn trg adj) s = App.setRelatedWords related s.
Proof.
  destruct syn, trg, adj; simpl;
    try (exists (App.relatedWords s); destruct s; reflexivity).
  eexists; reflexivity.
Qed.

Lemma fetchTranslation_frame (st : App.State) (worldOf : string -> TranslateWorld)
    (word : string) (s : App.State) :
  exists t c,
    fst (fetchTranslation st worldOf word) s
    = App.setTranslation t (App.setTranslationCache c s).
Proof.
  unfold fetchTranslation. destruct (App.language st); simpl.
  - exists None, (App.translationCache s). destruct s; reflexivity.
  - rewrite writeCache_frame. eexists _, _. reflexivity.
Qed.

(** A search that goes through records the word, and only the history
    callback writes the history. *)
Lemma handleSearch_history (st : App.State) (w : SearchWorld) (searchWord : string) :
  App.history (fst (handleSearch st w searchWord))
  = if blank searchWord then App.history st
    else newHistory (App.history st) searchWord.
Proof.
  unfold handleSearch. rewrite truthy_trim.
  destruct (blank searchWord); simpl; [reflexivity |].
  match goal with
  | |- context [fst (fetchTranslation st ?wo ?sw) ?s] =>
      destruct (fetchTranslation_frame st wo sw s) as (t & c & ->)
  end.
  match goal with
  | |- context [fst (fetchRelatedWords ?sw ?a ?b ?d) ?s] =>
      destruct (fetchRelatedWords_frame sw a b d s) as (rel & ->)
  end.
  match goal with
  | |- context [fst (fetchDefinitions st ?r ?wo ?sw) ?s] =>
      pose proof (fetchDefinitions_frame st r wo sw s) as Hf;
      simpl in Hf; destruct Hf as (_ & _ & _ & _ & Hh & _)
  end.
  transitivity (App.history
    (fst (fetchDefinitions st (dictionary w) (translations w) searchWord)
       (App.setHistory (newHistory (App.history st) searchWord)
          (App.setWord searchWord st)))).
  - match goal with
    | |- App.history (App.setTranslation _ (App.setTranslationCache _
           (App.setRelatedWords _ ?x))) = _ => destruct x; reflexivity
    end.
  - rewrite Hh. destruct st; reflexivity.
Qed.

(** ** A failed dictionary lookup *)

(** C10.  Whenever the dictionary lookup fails (the request is rejected, the
    status is 404 or another non-success status, or the body is not JSON),
    [fetchDefinitions] empties the definitions, whatever was displayed, and
    sets the error to the message of the failure; [loading] is reset.  The
    related words are not touched by it.  The same holds for the state a
    search leaves. *)
Theorem fetchDefinitions_failure_clears (st : App.State) (r : DictionaryReply)
    (worldOf : string -> TranslateWorld) (word : string) :
  lookupFails r = true ->
  (forall s : App.State,
     let s' := fst (fetchDefinitions st r worldOf word) s in
     App.definitions s' = []
     /\ App.error s' = Some (lookupMessage (App.language st) r)
     /\ App.loading s' = false
     /\ App.relatedWords s' = App.relatedWords s)
  /\ (forall w : SearchWorld,
        dictionary w = r -> blank word = false ->
        App.definitions (fst (handleSearch st w word)) = []
        /\ App.error (fst (handleSearch st w word))
           = Some (lookupMessage (App.language st) r)).
Proof.
  intros Hfail. split.
  - intros s. destruct r; try discriminate; destruct s; repeat split; reflexivity.
  - intros w Hw Hb. unfold handleSearch. rewrite truthy_trim, Hb. simpl.
    match goal with
    | |- context [fst (fetchTranslation st ?wo ?sw) ?s] =>
        destruct (fetchTranslation_frame st wo sw s) as (t & c & ->)
    end.
    match goal with
    | |- context [fst (fetchRelatedWords ?sw ?a ?b ?d) ?s] =>
        destruct (fetchRelatedWords_frame sw a b d s) as (rel & ->)
    end.
    rewrite Hw.
    destruct r; try discriminate; destruct st; split; reflexivity.
Qed.

Lemma fetchDefinitions_failure_clears_witness :
  App.definitions
    (fst (fetchDefinitions initialState (HttpError 404) (fun _ => offline) "xyzzyqq")
       (App.setDefinitions [runEntry] initialState)) = []
  /\ App.error
       (fst (fetchDefinitions initialState (HttpError 404) (fun _ => offline) "xyzzyqq")
          (App.setDefinitions [runEntry] initialState)) = Some "Word not found".
Proof.
  destruct (fetchDefinitions_failure_clears initialState (HttpError 404)
              (fun _ => offline) "xyzzyqq" eq_refl) as [H _].
  destruct (H (App.setDefinitions [runEntry] initialState)) as (Hd & He & _).
  split; [exact Hd | exact He].
Defined.

(** ** A failed aggregation *)

(** C6.  When one of the three requests of [fetchRelatedWords] fails, and so
    when all three do, the callback leaves the whole state as it was: the
    related words are neither emptied nor replaced by what the other
    requests returned, and the error is not set.  The failure is logged, by
    one [console.error] after the three requests.  A search in which the
    aggregation fails leaves the related words as they were. *)
Theorem fetchRelatedWords_failure_keeps (word : string) (syn trg adj : WordsReply) :
  wordsFailed syn || wordsFailed trg || wordsFailed adj = true ->
  (forall s : App.State, fst (fetchRelatedWords word syn trg adj) s = s)
  /\ snd (fetchRelatedWords word syn trg adj)
     = [Fetch (DatamuseWords "rel_syn" word);
        Fetch (DatamuseWords "rel_trg" word);
        Fetch (DatamuseWords "rel_jjb" word);
        ConsoleError "Failed to load related words:"]
  /\ (forall (st : App.State) (w : SearchWorld),
        synonyms w = syn -> triggers w = trg -> adjectives w = adj ->
        App.relatedWords (fst (handleSearch st w word)) = App.relatedWords st).
Proof.
  intros Hfail.
  assert (Hkeep : forall s : App.State,
             fst (fetchRelatedWords word syn trg adj) s = s).
  { intros s. destruct syn, trg, adj; try discriminate; reflexivity. }
  split; [exact Hkeep |]. split.
  - destruct syn, trg, adj; try discriminate; reflexivity.
  - intros st w Hs Ht Ha. unfold handleSearch.
    destruct (negb (truthy (trim word))); [reflexivity |]. simpl.
    rewrite Hs, Ht, Ha, Hkeep.
    match goal with
    | |- context [fst (fetchTranslation st ?wo ?sw) ?s] =>
        destruct (fetchTranslation_frame st wo sw s) as (t & c & ->)
    end.
    match goal with
    | |- context [fst (fetchDefinitions st ?r ?wo ?sw) ?s] =>
        pose proof (fetchDefinitions_frame st r wo sw s) as Hf;
        simpl in Hf; destruct Hf as (_ & Hr & _)
    end.
    transitivity (App.relatedWords
      (fst (fetchDefinitions st (dictionary w) (translations w) word)
         (App.setHistory (newHistory (App.history st) word)
            (App.setWord word st)))).
    + match goal with
      | |- App.relatedWords (App.setTranslation _ (App.setTranslationCache _ ?x))
           = _ => destruct x; reflexivity
      end.
    + rewrite Hr. destruct st; reflexivity.
Qed.

Lemma fetchRelatedWords_failure_keeps_witness :
  fst (fetchRelatedWords "run" WordsRejected WordsRejected WordsRejected)
      (App.setRelatedWords [RelatedWord.mk "sprint" 900] initialState)
  = App.setRelatedWords [RelatedWord.mk "sprint" 900] initialState
  /\ fst (fetchRelatedWords "run" (Words [RelatedWord.mk "jog" 500])
            WordsRejected (Words []))
         (App.setRelatedWords [RelatedWord.mk "sprint" 900] initialState)
     = App.setRelatedWords [RelatedWord.mk "sprint" 900] initialState.
Proof.
  split.
  - apply (fetchRelatedWords_failure_keeps "run" WordsRejected WordsRejected
             WordsRejected eq_refl).
  - apply (fetchRelatedWords_failure_keeps "run" (Words [RelatedWord.mk "jog" 500])
             WordsRejected (Words []) eq_refl).
Defined.

(** ** Favourites *)

Lemma includes_elem_of (l : list string) (word : string) :
  includes l word = true <-> word ∈ l.
Proof.
  unfold includes. rewrite existsb_exists, list_elem_of_In. split.
  - intros (x & Hin & Heq). apply String.eqb_eq in Heq. subst. exact Hin.
  - intros Hin. exists word. split; [exact Hin | apply String.eqb_refl].
Qed.

Lemma elem_of_without (l : list string) (word x : string) :
  x ∈ List.filter (fun w => negb (String.eqb w word)) l <-> x ∈ l /\ x <> word.
Proof.
  rewrite !list_elem_of_In, filter_In, negb_true_iff, String.eqb_neq. reflexivity.
Qed.

Lemma elem_of_newFavorites (favorites : list string) (word x : string) :
  x ∈ newFavorites favorites word
  <-> (if includes favorites word then x ∈ favorites /\ x <> word
       else x ∈ favorites \/ x = word).
Proof.
  unfold newFavorites. destruct (includes favorites word).
  - apply elem_of_without.
  - rewrite elem_of_app, list_elem_of_singleton. reflexivity.
Qed.

(** Toggling a word that is not a favourite, twice, gives the list back. *)
Lemma newFavorites_twice_absent (favorites : list string) (word : string) :
  word ∉ favorites ->
  newFavorites (newFavorites favorites word) word = favorites.
Proof.
  intros Hnot.
  assert (Hf : includes favorites word = false).
  { destruct (includes favorites word) eqn:E; [| reflexivity].
    apply includes_elem_of in E. contradiction. }
  unfold newFavorites at 2. rewrite Hf. unfold newFavorites.
  assert (Ht : includes (favorites ++ [word]) word = true).
  { apply includes_elem_of. rewrite elem_of_app, list_elem_of_singleton. auto. }
  rewrite Ht, List.filter_app. simpl. rewrite String.eqb_refl. simpl.
  rewrite app_nil_r. apply forallb_filter_id.
  apply forallb_forall. intros x Hx. apply negb_true_iff, String.eqb_neq.
  intros ->. apply Hnot, list_elem_of_In, Hx.
Qed.

(** C9.  Toggling the favourite status of a word twice gives back the same
    set of favourites: the favourites after the two clicks, as a set of
    words, are the favourites before them. *)
Theorem toggleFavorite_twice (st : App.State) (word : string) :
  favoriteSet (App.favorites (clickFavorite (clickFavorite st word) word))
  = favoriteSet (App.favorites st).
Proof.
  assert (H : App.favorites (clickFavorite (clickFavorite st word) word)
              = newFavorites (newFavorites (App.favorites st) word) word).
  { destruct st; reflexivity. }
  rewrite H. unfold favoriteSet. apply set_eq. intros x.
  rewrite !elem_of_list_to_set, elem_of_newFavorites.
  destruct (includes (newFavorites (App.favorites st) word) word) eqn:E2.
  - apply includes_elem_of in E2.
    rewrite elem_of_newFavorites in *.
    destruct (includes (App.favorites st) word) eqn:E1.
    + destruct E2 as [_ E2]. contradiction.
    + apply not_true_iff_false in E1. rewrite includes_elem_of in E1.
      split.
      * intros [[Hx | Hx] Hne]; [exact Hx | contradiction].
      * intros Hx. split; [left; exact Hx |]. intros ->. contradiction.
  - apply not_true_iff_false in E2. rewrite includes_elem_of in E2.
    rewrite elem_of_newFavorites in *.
    destruct (includes (App.favorites st) word) eqn:E1.
    + apply includes_elem_of in E1. split.
      * intros [[Hx _] | ->]; [exact Hx | exact E1].
      * intros Hx. destruct (decide (x = word)) as [-> | Hne]; [right | left]; auto.
    + exfalso. apply E2. right. reflexivity.
Qed.

(** ** The search history *)

Lemma In_firstn {A : Type} (n : nat) (l : list A) (x : A) :
  In x (firstn n l) -> In x l.
Proof.
  revert l. induction n as [| n IH]; intros [| y r]; simpl; try tauto.
  intros [-> | H]; [left; reflexivity | right; apply IH; exact H].
Qed.

(** The history [addToHistory] writes is computed from the history of the
    render that created the callback, whatever the state is by then. *)
Lemma addToHistory_reads_its_render (st s : App.State) (word : string) :
  App.history (fst (addToHistory st word) s) = newHistory (App.history st) word.
Proof. destruct s; reflexivity. Qed.

Lemma newHistory_unfold (history : list string) (word : string) :
  newHistory history word
  = toLowerCase word
    :: firstn 14 (List.filter (fun w => negb (sameWord w word)) history).
Proof. reflexivity. Qed.

Lemma newHistory_length (history : list string) (word : string) :
  length (newHistory history word) <= 15.
Proof. unfold newHistory. apply firstn_le_length. Qed.

Lemma searchAll_length (st : App.State) (searches : list (SearchWorld * string)) :
  length (App.history st) <= 15 ->
  length (App.history (searchAll st searches)) <= 15.
Proof.
  unfold searchAll. revert st.
  induction searches as [| [w word] rest IH]; intros st Hst; simpl; [exact Hst |].
  apply IH. rewrite handleSearch_history.
  destruct (blank word); [exact Hst | apply newHistory_length].
Qed.

(** What [addToHistory] does with the history it reads, in both revisions,
    and what the searches of the caching revision leave.  Recording a word
    puts its lower-case form at the front, drops every prior entry that
    equals it up to case, keeps the other prior entries in their order, and
    cuts the list at 15 entries.  In the caching revision a search of a
    word that is not blank records it on the history of the render on
    screen: from an empty history the searches "Hello", "WORLD", "hello"
    leave ["hello"; "world"], and however many searches are made the
    history never holds more than 15 entries. *)
Theorem addToHistory_records :
  (forall (history : list string) (word : string),
     newHistory history word
     = toLowerCase word
       :: firstn 14 (List.filter (fun w => negb (sameWord w word)) history)
     /\ (forall w, In w (tl (newHistory history word)) ->
                   In w history /\ sameWord w word = false)
     /\ length (newHistory history word) <= 15)
  /\ (forall (st : App.State) (w : SearchWorld) (word : string),
        blank word = false ->
        App.history (fst (handleSearch st w word))
        = newHistory (App.history st) word)
  /\ (forall (st : App.State) (w1 w2 w3 : SearchWorld),
        App.history st = [] ->
        App.history (searchAll st [(w1, "Hello"); (w2, "WORLD"); (w3, "hello")])
        = ["hello"; "world"])
  /\ (forall (st : App.State) (searches : list (SearchWorld * string)),
        length (App.history st) <= 15 ->
        length (App.history (searchAll st searches)) <= 15).
Proof.
  split; [| split; [| split]].
  - intros history word. split; [apply newHistory_unfold |]. split.
    + rewrite newHistory_unfold. simpl. intros w Hw.
      apply In_firstn, filter_In in Hw. destruct Hw as [Hin Hne].
      split; [exact Hin | apply negb_true_iff; exact Hne].
    + apply newHistory_length.
  - intros st w word Hb. rewrite handleSearch_history, Hb. reflexivity.
  - intros st w1 w2 w3 Hst. unfold searchAll. cbn [fold_left fst snd].
    rewrite !handleSearch_history, Hst. reflexivity.
  - apply searchAll_length.
Qed.

Lemma addToHistory_records_witness :
  App.history (fst (handleSearch initialState silentWorld "Hello")) = ["hello"]
  /\ length (App.history
               (searchAll initialState
                  [(silentWorld, "a"); (silentWorld, "b")])) <= 15.
Proof.
  destruct addToHistory_records as (_ & Hsearch & _ & Hcap). split.
  - apply (Hsearch initialState silentWorld "Hello"). reflexivity.
  - apply (Hcap initialState). simpl. lia.
Defined.

(** ** The related-word aggregation *)

Lemma findIndex_none {A : Type} (p : A -> bool) (l : list A) :
  findIndex p l = None <-> forall x, In x l -> p x = false.
Proof.
  induction l as [| y r IH]; simpl.
  - split; [intros _ x [] | reflexivity].
  - destruct (p y) eqn:Hy.
    + split; [discriminate |]. intros H. rewrite (H y) in Hy by auto. discriminate.
    + destruct (findIndex p r); simpl.
      * split; [discriminate |]. intros H. exfalso.
        assert (Hc : Some n = None)
          by (apply IH; intros x Hx; apply H; right; exact Hx).
        discriminate.
      * split; [| reflexivity]. intros _ x [<- | Hx]; [exact Hy |].
        apply IH; [reflexivity | exact Hx].
Qed.

Lemma findIndex_lt {A : Type} (p : A -> bool) (l : list A) (j : nat) :
  findIndex p l = Some j -> j < length l.
Proof.
  revert j. induction l as [| y r IH]; intros j; simpl; [discriminate |].
  destruct (p y).
  - intros [= <-]. lia.
  - destruct (findIndex p r) as [i|]; simpl; [| discriminate].
    intros [= <-]. specialize (IH i eq_refl). lia.
Qed.

Lemma findIndex_app_l {A : Type} (p : A -> bool) (l k : list A) (j : nat) :
  findIndex p l = Some j -> findIndex p (l ++ k) = Some j.
Proof.
  revert j. induction l as [| y r IH]; intros j; simpl; [discriminate |].
  destruct (p y); [auto |].
  destruct (findIndex p r) as [i|]; simpl; [| discriminate].
  intros [= <-]. rewrite (IH i eq_refl). reflexivity.
Qed.

Lemma findIndex_app_here {A : Type} (p : A -> bool) (l k : list A) (x : A) :
  findIndex p l = None -> p x = true ->
  findIndex p (l ++ x :: k) = Some (length l).
Proof.
  induction l as [| y r IH]; simpl; intros Hn Hx.
  - rewrite Hx. reflexivity.
  - destruct (p y); [discriminate |].
    destruct (findIndex p r); [discriminate |].
    rewrite (IH eq_refl Hx). reflexivity.
Qed.

(** The index test of the source keeps exactly the first occurrence of each
    word: what is kept of [l], standing after [p] in the array, is what
    [keepFirst] keeps once the words of [p] are seen. *)
Lemma filterIndexed_keepFirst_from (l p : list RelatedWord.t) (seen : list string) :
  (forall s, existsb (String.eqb s) seen = true
             <-> In s (map RelatedWord.word p)) ->
  map snd
    (List.filter (fun iv => firstOfItsWord (snd iv) (fst iv) (p ++ l))
       (combine (seq (length p) (length l)) l))
  = keepFirst seen l.
Proof.
  revert p seen. induction l as [| x r IH]; intros p seen Hseen; [reflexivity |].
  cbn [length seq combine List.filter keepFirst fst snd].
  assert (Hw : findIndex
                 (fun t => String.eqb (RelatedWord.word t) (RelatedWord.word x)) p
               = None
               <-> ~ In (RelatedWord.word x) (map RelatedWord.word p)).
  { rewrite findIndex_none, in_map_iff. split.
    - intros H (y & Hy & Hin). specialize (H y Hin).
      rewrite Hy, String.eqb_refl in H. discriminate.
    - intros H y Hin. apply String.eqb_neq. intros Hy. apply H. eauto. }
  assert (Hpr : (p ++ x :: r)%list = ((p ++ [x]) ++ r)%list)
    by (rewrite <- app_assoc; reflexivity).
  assert (Hlen : S (length p) = length (p ++ [x])%list)
    by (rewrite length_app; simpl; lia).
  destruct (existsb (String.eqb (RelatedWord.word x)) seen) eqn:Hex.
  - apply Hseen in Hex.
    destruct (findIndex
                (fun t => String.eqb (RelatedWord.word t) (RelatedWord.word x)) p)
      as [j|] eqn:Hj.
    + unfold firstOfItsWord at 1. rewrite (findIndex_app_l _ p (x :: r) j Hj).
      apply findIndex_lt in Hj.
      replace (j =? length p)%nat with false
        by (symmetry; apply Nat.eqb_neq; lia).
      rewrite Hpr, Hlen. apply IH.
      intros s. rewrite Hseen, !in_map_iff. split.
      * intros (y & Hy & Hin). exists y. split; [exact Hy |].
        apply in_or_app. left. exact Hin.
      * intros (y & Hy & Hin). apply in_app_or in Hin.
        destruct Hin as [Hin | [<- | []]].
        -- exists y. split; [exact Hy | exact Hin].
        -- rewrite <- Hy. apply in_map_iff. exact Hex.
    + exfalso. apply Hw; [reflexivity | exact Hex].
  - assert (Hnone : findIndex
                (fun t => String.eqb (RelatedWord.word t) (RelatedWord.word x)) p
               = None).
    { apply Hw. intros Hin. apply Hseen in Hin. rewrite Hin in Hex. discriminate. }
    unfold firstOfItsWord at 1.
    rewrite (findIndex_app_here _ p r x Hnone (String.eqb_refl _)).
    rewrite Nat.eqb_refl. cbn [map snd]. f_equal.
    rewrite Hpr, Hlen. apply IH.
    intros s. cbn [existsb]. rewrite orb_true_iff, Hseen, map_app, in_app_iff.
    cbn [map In]. rewrite String.eqb_eq. split.
    + intros [-> | H]; [right; left; reflexivity | left; exact H].
    + intros [H | [<- | []]]; [right; exact H | left; reflexivity].
Qed.

Lemma filterIndexed_keepFirst (a : list RelatedWord.t) :
  filterIndexed firstOfItsWord a = keepFirst [] a.
Proof.
  unfold filterIndexed, indexed.
  apply (filterIndexed_keepFirst_from a [] []).
  intros s. simpl. split; [discriminate | intros []].
Qed.

Lemma keepFirst_fresh (seen : list string) (l : list RelatedWord.t)
    (x : RelatedWord.t) :
  In x (keepFirst seen l) ->
  In x l /\ existsb (String.eqb (RelatedWord.word x)) seen = false.
Proof.
  revert seen. induction l as [| y r IH]; intros seen; simpl; [intros [] |].
  destruct (existsb (String.eqb (RelatedWord.word y)) seen) eqn:Hy.
  - intros H. apply IH in H as [H1 H2]. auto.
  - intros [<- | H]; [auto |].
    apply IH in H as [H1 H2]. simpl in H2.
    apply orb_false_iff in H2 as [_ H2]. auto.
Qed.

Lemma keepFirst_NoDup (seen : list string) (l : list RelatedWord.t) :
  NoDup (map RelatedWord.word (keepFirst seen l)).
Proof.
  revert seen. induction l as [| y r IH]; intros seen; simpl; [constructor |].
  destruct (existsb (String.eqb (RelatedWord.word y)) seen); [apply IH |].
  simpl. apply NoDup_cons. split; [| apply IH].
  intros Hin. apply list_elem_of_In, in_map_iff in Hin as (z & Hz & Hin).
  apply keepFirst_fresh in Hin as [_ Hin]. simpl in Hin.
  rewrite Hz, String.eqb_refl in Hin. discriminate.
Qed.

(** Every word of the input is still there after [keepFirst]. *)
Lemma keepFirst_complete (seen : list string) (l : list RelatedWord.t)
    (x : RelatedWord.t) :
  In x l -> existsb (String.eqb (RelatedWord.word x)) seen = false ->
  In (RelatedWord.word x) (map RelatedWord.word (keepFirst seen l)).
Proof.
  revert seen. induction l as [| y r IH]; intros seen; simpl; [intros [] |].
  intros Hin Hx.
  destruct (existsb (String.eqb (RelatedWord.word y)) seen) eqn:Hy.
  - destruct Hin as [-> | Hin]; [congruence | apply IH; assumption].
  - simpl. destruct Hin as [-> | Hin]; [left; reflexivity |].
    destruct (String.eqb_spec (RelatedWord.word x) (RelatedWord.word y)) as [He | Hne].
    + left. symmetry. exact He.
    + right. apply IH; [exact Hin |]. simpl.
      apply orb_false_iff. split; [| exact Hx]. apply String.eqb_neq. exact Hne.
Qed.

Lemma insertByScore_perm (x : RelatedWord.t) (l : list RelatedWord.t) :
  Permutation (insertByScore x l) (x :: l).
Proof.
  induction l as [| y r IH]; simpl; [reflexivity |].
  destruct (RelatedWord.score y <=? RelatedWord.score x)%Z; [reflexivity |].
  rewrite IH. apply perm_swap.
Qed.

Lemma sortByScore_perm (l : list RelatedWord.t) : Permutation (sortByScore l) l.
Proof.
  induction l as [| x r IH]; simpl; [reflexivity |].
  rewrite insertByScore_perm, IH. reflexivity.
Qed.

Lemma insertByScore_descending (x : RelatedWord.t) (l : list RelatedWord.t) :
  descending l -> descending (insertByScore x l).
Proof.
  unfold descending. induction l as [| y r IH]; simpl; intros Hl.
  - constructor; constructor.
  - apply StronglySorted_inv in Hl as [Hr Hy].
    destruct (Z.leb_spec (RelatedWord.score y) (RelatedWord.score x)) as [Hle | Hgt].
    + constructor; [constructor; assumption |].
      constructor; [exact Hle |].
      rewrite List.Forall_forall in *. intros z Hz. specialize (Hy z Hz). lia.
    + constructor; [apply IH; exact Hr |].
      rewrite List.Forall_forall in *. intros z Hz.
      apply (Permutation_in _ (insertByScore_perm x r)) in Hz.
      destruct Hz as [<- | Hz]; [lia | apply Hy; exact Hz].
Qed.

Lemma sortByScore_descending (l : list RelatedWord.t) : descending (sortByScore l).
Proof.
  induction l as [| x r IH]; simpl; [constructor |].
  apply insertByScore_descending. exact IH.
Qed.

(** The sort is stable: the words of one score keep their order. *)
Lemma insertByScore_withScore (s : Z) (x : RelatedWord.t) (l : list RelatedWord.t) :
  withScore s (insertByScore x l) = withScore s (x :: l).
Proof.
  unfold withScore. induction l as [| y r IH]; [reflexivity |].
  cbn [insertByScore].
  destruct (Z.leb_spec (RelatedWord.score y) (RelatedWord.score x)) as [Hle | Hgt];
    [reflexivity |].
  cbn [List.filter] in *. rewrite IH.
  destruct (Z.eqb_spec (RelatedWord.score x) s) as [Hx | Hx];
    destruct (Z.eqb_spec (RelatedWord.score y) s) as [Hy | Hy];
    try reflexivity; lia.
Qed.

Lemma sortByScore_stable (s : Z) (l : list RelatedWord.t) :
  withScore s (sortByScore l) = withScore s l.
Proof.
  induction l as [| x r IH]; [reflexivity |].
  cbn [sortByScore fold_right]. fold (sortByScore r).
  rewrite insertByScore_withScore. unfold withScore in *.
  cbn [List.filter]. rewrite IH. reflexivity.
Qed.

Lemma NoDup_firstn {A : Type} (n : nat) (l : list A) :
  NoDup l -> NoDup (firstn n l).
Proof. intros H. eapply sublist_NoDup; [exact H | apply sublist_take]. Qed.

Lemma descending_firstn (n : nat) (l : list RelatedWord.t) :
  descending l -> descending (firstn n l).
Proof.
  unfold descending. revert l. induction n as [| n IH]; intros [| x r] H; simpl;
    try constructor.
  - apply IH. apply StronglySorted_inv in H. tauto.
  - apply StronglySorted_inv in H as [_ H].
    rewrite List.Forall_forall in *. intros z Hz. apply H, (In_firstn n), Hz.
Qed.

(** C4.  The related words [fetchRelatedWords] displays are the three lists
    concatenated (synonyms, triggers, adjectives), reduced to the first
    occurrence of each word text, sorted by score in descending order (a
    rearrangement of the reduced list that keeps the order of words of
    equal score), and cut at 30 entries.  So the result has at most 30
    entries, no word text twice, and descending scores. *)
Theorem combined_spec (synonyms triggers adjectives : list RelatedWord.t) :
  let unique := keepFirst [] (synonyms ++ triggers ++ adjectives)%list in
  combined synonyms triggers adjectives = firstn 30 (sortByScore unique)
  /\ Permutation (sortByScore unique) unique
  /\ descending (sortByScore unique)
  /\ (forall s : Z, withScore s (sortByScore unique) = withScore s unique)
  /\ length (combined synonyms triggers adjectives) <= 30
  /\ NoDup (map RelatedWord.word (combined synonyms triggers adjectives))
  /\ descending (combined synonyms triggers adjectives).
Proof.
  intros unique.
  assert (Heq : combined synonyms triggers adjectives
                = firstn 30 (sortByScore unique)).
  { unfold combined. rewrite filterIndexed_keepFirst. reflexivity. }
  split; [exact Heq |].
  split; [apply sortByScore_perm |].
  split; [apply sortByScore_descending |].
  split; [intros s; apply sortByScore_stable |].
  rewrite Heq.
  split; [apply firstn_le_length |].
  split.
  - rewrite <- firstn_map. apply NoDup_firstn.
    rewrite (Permutation_map RelatedWord.word (sortByScore_perm unique)).
    apply keepFirst_NoDup.
  - apply descending_firstn, sortByScore_descending.
Qed.

(** With a successful aggregation the state holds that list. *)
Lemma fetchRelatedWords_success (word : string)
    (s t a : list RelatedWord.t) (st : App.State) :
  App.relatedWords (fst (fetchRelatedWords word (Words s) (Words t) (Words a)) st)
  = combined s t a.
Proof. destruct st; reflexivity. Qed.

(** ** Objects as dictionaries *)

Lemma obj_set_present (o : JsObject) (k v : string) :
  In k (map fst o) -> map fst (obj_set o k v) = map fst o.
Proof.
  induction o as [| [k' v'] r IH]; simpl; [intros [] |].
  destruct (String.eqb_spec k' k) as [-> | Hne]; [reflexivity |].
  intros [H | H]; [contradiction |]. simpl. rewrite (IH H). reflexivity.
Qed.

Lemma obj_set_fresh (o : JsObject) (k v : string) :
  ~ In k (map fst o) -> obj_set o k v = (o ++ [(k, v)])%list.
Proof.
  induction o as [| [k' v'] r IH]; simpl; [reflexivity |].
  intros Hn. destruct (String.eqb_spec k' k) as [-> | Hne]; [tauto |].
  rewrite IH by tauto. reflexivity.
Qed.

Lemma obj_set_keys (o : JsObject) (k v : string) (x : string) :
  In x (map fst (obj_set o k v)) <-> In x (map fst o) \/ x = k.
Proof.
  destruct (in_dec string_dec k (map fst o)) as [Hin | Hn].
  - rewrite obj_set_present by exact Hin. split; [auto |].
    intros [H | ->]; assumption.
  - rewrite obj_set_fresh by exact Hn. rewrite map_app, in_app_iff. simpl.
    split; intros [H | H]; auto; destruct H as [<- | []]; auto.
Qed.

Lemma obj_set_NoDup (o : JsObject) (k v : string) :
  NoDup (map fst o) -> NoDup (map fst (obj_set o k v)).
Proof.
  intros Ho. destruct (in_dec string_dec k (map fst o)) as [Hin | Hn].
  - rewrite obj_set_present by exact Hin. exact Ho.
  - rewrite obj_set_fresh by exact Hn. rewrite map_app. simpl.
    apply NoDup_app. split; [exact Ho |]. split.
    + intros x Hx Hk. apply list_elem_of_singleton in Hk. subst.
      apply Hn, list_elem_of_In, Hx.
    + apply NoDup_singleton.
Qed.

Lemma obj_assign_all_app (o : JsObject) (a b : list (string * string)) :
  obj_assign_all o (a ++ b) = obj_assign_all (obj_assign_all o a) b.
Proof. unfold obj_assign_all. apply fold_left_app. Qed.

Lemma obj_assign_all_keys (kvs : list (string * string)) (o : JsObject) (x : string) :
  In x (map fst (obj_assign_all o kvs)) <-> In x (map fst o) \/ In x (map fst kvs).
Proof.
  revert o. induction kvs as [| [k v] r IH]; intros o; simpl.
  - tauto.
  - fold (obj_assign_all (obj_set o k v) r). rewrite IH, obj_set_keys.
    split; intros H; intuition (subst; auto).
Qed.

Lemma obj_assign_all_NoDup (kvs : list (string * string)) (o : JsObject) :
  NoDup (map fst o) -> NoDup (map fst (obj_assign_all o kvs)).
Proof.
  revert o. induction kvs as [| [k v] r IH]; intros o Ho; simpl; [exact Ho |].
  fold (obj_assign_all (obj_set o k v) r). apply IH, obj_set_NoDup, Ho.
Qed.

(** Assigning entries whose keys are new and pairwise distinct appends them
    in order. *)
Lemma obj_assign_all_fresh (kvs : list (string * string)) (o : JsObject) :
  NoDup (map fst (o ++ kvs)) -> obj_assign_all o kvs = (o ++ kvs)%list.
Proof.
  revert o. induction kvs as [| [k v] r IH]; intros o Hnd; simpl.
  - rewrite app_nil_r. reflexivity.
  - fold (obj_assign_all (obj_set o k v) r).
    assert (Hk : ~ In k (map fst o)).
    { rewrite map_app in Hnd. apply NoDup_app in Hnd as (_ & Hd & _).
      intros Hin. apply (Hd k); [apply list_elem_of_In; exact Hin |].
      simpl. left. }
    rewrite obj_set_fresh by exact Hk.
    rewrite IH; rewrite <- app_assoc; [reflexivity | exact Hnd].
Qed.

(** ** The texts the bulk translation collects *)

Lemma fold_left_assign {A : Type}
    (f : JsObject * JsObject -> A -> JsObject * JsObject)
    (g h : A -> list (string * string)) :
  (forall acc x, f acc x = (obj_assign_all (fst acc) (g x),
                            obj_assign_all (snd acc) (h x))) ->
  forall l acc,
    fold_left f l acc = (obj_assign_all (fst acc) (flat_map g l),
                         obj_assign_all (snd acc) (flat_map h l)).
Proof.
  intros Hf l. induction l as [| x r IH]; intros acc; simpl.
  - destruct acc; reflexivity.
  - rewrite IH, Hf, !obj_assign_all_app. reflexivity.
Qed.

Lemma visitDefinition_assign (word partOfSpeech : string)
    (acc : JsObject * JsObject) (d : nat * Def.t) :
  visitDefinition word partOfSpeech acc d
  = (obj_assign_all (fst acc) (definitionOf word partOfSpeech d),
     obj_assign_all (snd acc) (exampleOf word partOfSpeech d)).
Proof.
  unfold visitDefinition, definitionOf, exampleOf.
  destruct (Def.example (snd d)) as [e|]; [destruct (truthy e) |]; reflexivity.
Qed.

Lemma collectTexts_flat (data : list Entry.t) :
  collectTexts data
  = (obj_assign_all [] (definitionTexts data),
     obj_assign_all [] (exampleTexts data)).
Proof.
  unfold collectTexts, definitionTexts, exampleTexts.
  apply (fold_left_assign visitEntry). intros acc def.
  unfold visitEntry. apply (fold_left_assign (visitMeaning (Entry.word def))).
  intros acc' meaning. unfold visitMeaning.
  apply (fold_left_assign
           (visitDefinition (Entry.word def) (Meaning.partOfSpeech meaning))).
  apply visitDefinition_assign.
Qed.

(** ** Cache keys *)

Lemma lastChar_append (a b : string) :
  lastChar (a ++ b)
  = match lastChar b with Some c => Some c | None => lastChar a end.
Proof.
  induction a as [| c r IH].
  - change ("" ++ b) with b. destruct (lastChar b); reflexivity.
  - change (String c r ++ b) with (String c (r ++ b)).
    cbn [lastChar]. rewrite IH. destruct (lastChar b); [reflexivity |].
    destruct (lastChar r); reflexivity.
Qed.

Lemma decimalAux_last (fuel n : nat) (acc : string) (c : ascii) :
  lastChar acc = Some c -> lastChar (decimalAux fuel n acc) = Some c.
Proof.
  revert n acc. induction fuel as [| fuel IH]; intros n acc Hacc; simpl;
    [exact Hacc |].
  assert (H : lastChar (String (digitChar n) acc) = Some c)
    by (simpl; rewrite Hacc; reflexivity).
  destruct (n <? 10)%nat; [exact H | apply IH; exact H].
Qed.

Lemma decimal_last (n : nat) : lastChar (decimal n) = Some (digitChar n).
Proof.
  unfold decimal. cbn [decimalAux].
  destruct (n <? 10)%nat; [reflexivity | apply decimalAux_last; reflexivity].
Qed.

Lemma digitChar_not_e (n : nat) : digitChar n <> "e"%char.
Proof.
  unfold digitChar. pose proof (Nat.mod_upper_bound n 10) as Hlt.
  generalize dependent (n mod 10). intros m Hm.
  do 10 (destruct m as [| m]; [vm_compute; discriminate |]). lia.
Qed.

(** A definition key ends with a digit, an example key with the letter e:
    no key is both. *)
Lemma defKey_last (word partOfSpeech : string) (i : nat) :
  lastChar (defKey word partOfSpeech i) = Some (digitChar i).
Proof.
  unfold defKey. rewrite !lastChar_append, decimal_last. reflexivity.
Qed.

Lemma exampleKey_last (word partOfSpeech : string) (i : nat) :
  lastChar (exampleKey word partOfSpeech i) = Some "e"%char.
Proof. unfold exampleKey. rewrite lastChar_append. reflexivity. Qed.

Lemma definitionTexts_key (data : list Entry.t) (k : string) :
  In k (map fst (definitionTexts data)) ->
  exists word partOfSpeech i, k = defKey word partOfSpeech i.
Proof.
  intros H. apply in_map_iff in H as ([k' v] & <- & H).
  unfold definitionTexts in H.
  apply in_flat_map in H as (def & _ & H).
  apply in_flat_map in H as (meaning & _ & H).
  apply in_flat_map in H as (d & _ & H).
  destruct H as [[= <- _] | []]. eauto.
Qed.

Lemma exampleTexts_key (data : list Entry.t) (k : string) :
  In k (map fst (exampleTexts data)) ->
  exists word partOfSpeech i, k = exampleKey word partOfSpeech i.
Proof.
  intros H. apply in_map_iff in H as ([k' v] & <- & H).
  unfold exampleTexts in H.
  apply in_flat_map in H as (def & _ & H).
  apply in_flat_map in H as (meaning & _ & H).
  apply in_flat_map in H as (d & _ & H).
  unfold exampleOf in H. destruct (Def.example (snd d)) as [e|]; [| destruct H].
  destruct (truthy e); [| destruct H].
  destruct H as [[= <- _] | []]. eauto.
Qed.

Lemma definition_key_not_example (data data' : list Entry.t) (k : string) :
  In k (map fst (definitionTexts data)) ->
  In k (map fst (exampleTexts data')) -> False.
Proof.
  intros Hd He.
  apply definitionTexts_key in Hd as (w & p & i & ->).
  apply exampleTexts_key in He as (w' & p' & i' & He).
  apply (f_equal lastChar) in He. rewrite defKey_last, exampleKey_last in He.
  injection He as He. exact (digitChar_not_e i He).
Qed.

(** ** The calls of the bulk translation *)

Lemma translateCallsOf_app (a b : list Event) :
  translateCallsOf (a ++ b) = (translateCallsOf a ++ translateCallsOf b)%list.
Proof. unfold translateCallsOf. apply flat_map_app. Qed.

(** [translateText] does not call itself. *)
Lemma translateText_no_calls (language : Language) (c : gmap string Cache.entry)
    (w : TranslateWorld) (text : string) (cacheKey : option string) :
  translateCallsOf (effects (translateText language c w text cacheKey)) = [].
Proof.
  unfold translateText. destruct language; [reflexivity |].
  destruct (cache_lookup c (js_or cacheKey text) (clock w)); [reflexivity |].
  destruct (bare w) as [[|]|]; try reflexivity.
  destruct (reply w) as [[ok body]|]; [| reflexivity].
  destruct (usableText body); [reflexivity |].
  destruct (bodyThrows body); reflexivity.
Qed.

Lemma translateCallsOf_entries (language : Language)
    (c : gmap string Cache.entry) (worldOf : string -> TranslateWorld)
    (kvs : list (string * string)) :
  translateCallsOf
    (concat (map (fun kv => entryEvents kv (translateEntry language c worldOf kv))
                 kvs))
  = map asCall kvs.
Proof.
  induction kvs as [| kv r IH]; [reflexivity |].
  cbn [map concat]. rewrite translateCallsOf_app, IH.
  unfold entryEvents, translateEntry. cbn [translateCallsOf flat_map snd fst].
  fold (translateCallsOf
          (effects (translateText language c (worldOf (fst kv)) (snd kv)
                      (Some (fst kv))))).
  rewrite translateText_no_calls. reflexivity.
Qed.

Lemma bulk_calls (st : App.State) (worldOf : string -> TranslateWorld)
    (data : list Entry.t) :
  translateCallsOf (snd (translateDefinitionsAndExamples st worldOf data))
  = match App.language st with
    | en => []
    | ptBR =>
        map asCall (obj_assign_all [] (definitionTexts data)
                    ++ obj_assign_all [] (exampleTexts data))%list
    end.
Proof.
  unfold translateDefinitionsAndExamples.
  destruct (App.language st); [reflexivity |].
  cbn [snd]. rewrite translateCallsOf_entries, collectTexts_flat. reflexivity.
Qed.

Lemma fetchDefinitions_calls (st : App.State) (worldOf : string -> TranslateWorld)
    (word : string) (data : list Entry.t) :
  translateCallsOf (snd (fetchDefinitions st (Parsed data) worldOf word))
  = translateCallsOf (snd (translateDefinitionsAndExamples st worldOf data)).
Proof. reflexivity. Qed.

Lemma list_ascii_of_string_append (a b : string) :
  list_ascii_of_string (a ++ b)
  = (list_ascii_of_string a ++ list_ascii_of_string b)%list.
Proof.
  induction a as [| c r IH].
  - reflexivity.
  - change (String c r ++ b) with (String c (r ++ b)). simpl. rewrite IH.
    reflexivity.
Qed.

Lemma append_inj_suffix (s a b : string) : a ++ s = b ++ s -> a = b.
Proof.
  intros H. apply (f_equal list_ascii_of_string) in H.
  rewrite !list_ascii_of_string_append in H. apply app_inv_tail in H.
  apply (f_equal string_of_list_ascii) in H.
  rewrite !string_of_list_ascii_of_string in H. exact H.
Qed.

Lemma keys_flat_map_sublist {A : Type} (suffix : string -> string)
    (f g : A -> list (string * string)) (l : list A) :
  (forall x, map fst (g x) `sublist_of` map suffix (map fst (f x))) ->
  map fst (flat_map g l) `sublist_of` map suffix (map fst (flat_map f l)).
Proof.
  intros H. induction l as [| x r IH]; simpl; [reflexivity |].
  rewrite !map_app. apply sublist_app; [apply H | exact IH].
Qed.

(** The example keys are definition keys with the suffix: when the
    definition keys are pairwise distinct, so are the example keys. *)
Lemma exampleTexts_NoDup (data : list Entry.t) :
  NoDup (map fst (definitionTexts data)) -> NoDup (map fst (exampleTexts data)).
Proof.
  intros Hd.
  apply (sublist_NoDup _
           (map (fun k => k ++ "-example") (map fst (definitionTexts data)))).
  - apply (NoDup_fmap_2_strong (fun k => k ++ "-example")); [| exact Hd].
    intros a b _ _. apply append_inj_suffix.
  - unfold exampleTexts, definitionTexts.
    apply keys_flat_map_sublist. intros def.
    apply keys_flat_map_sublist. intros meaning.
    apply keys_flat_map_sublist. intros d.
    unfold exampleOf, definitionOf, exampleKey.
    destruct (Def.example (snd d)) as [e|]; [destruct (truthy e) |]; simpl;
      first [reflexivity | apply sublist_nil_l].
Qed.

Lemma collected_keys_NoDup (data : list Entry.t) :
  NoDup (map fst (obj_assign_all [] (definitionTexts data)
                  ++ obj_assign_all [] (exampleTexts data))%list).
Proof.
  rewrite map_app. apply NoDup_app. split; [| split].
  - apply obj_assign_all_NoDup. constructor.
  - intros k Hd He. apply list_elem_of_In in Hd, He.
    apply obj_assign_all_keys in Hd as [[] | Hd].
    apply obj_assign_all_keys in He as [[] | He].
    exact (definition_key_not_example data data k Hd He).
  - apply obj_assign_all_NoDup. constructor.
Qed.

Lemma map_snd_asCall (kvs : list (string * string)) :
  map snd (map asCall kvs) = map Some (map fst kvs).
Proof. rewrite !map_map. reflexivity. Qed.

(** C2, as the code has it.  After a successful dictionary lookup:
    with English as the language no translation call is made; with
    Portuguese the translation client is called with pairwise distinct
    cache keys, the keys being those built for the definitions and for the
    examples that are not empty; and when the keys of the definitions are
    pairwise distinct, it is called exactly once for every definition text
    and once for every such example text, in that order, each call reading
    the cache of the same render. *)
Theorem bulk_translation_calls (st : App.State)
    (worldOf : string -> TranslateWorld) (word : string) (data : list Entry.t) :
  let events := snd (fetchDefinitions st (Parsed data) worldOf word) in
  let calls := translateCallsOf events in
  (App.language st = en -> calls = [])
  /\ (App.language st = ptBR ->
        NoDup (map snd calls)
        /\ (forall k : string,
              In (Some k) (map snd calls)
              <-> In k (map fst (definitionTexts data ++ exampleTexts data)%list))
        /\ (NoDup (map fst (definitionTexts data)) ->
              calls = map asCall (definitionTexts data ++ exampleTexts data)%list
              /\ events
                 = Fetch (DictionaryEntries word)
                   :: concat
                        (map (fun kv =>
                                TranslateCall (snd kv) (Some (fst kv))
                                :: effects
                                     (translateText ptBR (App.translationCache st)
                                        (worldOf (fst kv)) (snd kv) (Some (fst kv))))
                             (definitionTexts data ++ exampleTexts data)%list))).
Proof.
  intros events calls. subst events calls.
  rewrite fetchDefinitions_calls, bulk_calls. split.
  - intros ->. reflexivity.
  - intros Hl. rewrite Hl. split; [| split].
    + rewrite map_snd_asCall.
      apply (NoDup_fmap_2_strong Some); [| apply collected_keys_NoDup].
      intros a b _ _ [= ->]. reflexivity.
    + intros k. rewrite map_snd_asCall, in_map_iff. split.
      * intros (k' & [= ->] & Hin). rewrite map_app, in_app_iff in *.
        destruct Hin as [Hin | Hin]; apply obj_assign_all_keys in Hin;
          destruct Hin as [[] | Hin]; auto.
      * intros Hin. exists k. split; [reflexivity |].
        rewrite map_app, in_app_iff in *.
        destruct Hin as [Hin | Hin]; [left | right];
          apply obj_assign_all_keys; right; exact Hin.
    + intros Hd.
      assert (H1 : obj_assign_all [] (definitionTexts data) = definitionTexts data)
        by (apply (obj_assign_all_fresh _ []); exact Hd).
      assert (H2 : obj_assign_all [] (exampleTexts data) = exampleTexts data)
        by (apply (obj_assign_all_fresh _ []), exampleTexts_NoDup; exact Hd).
      rewrite H1, H2. split; [reflexivity |].
      unfold fetchDefinitions, translateDefinitionsAndExamples.
      rewrite Hl, collectTexts_flat, H1, H2. reflexivity.
Qed.

Lemma bulk_translation_calls_witness :
  translateCallsOf
    (snd (fetchDefinitions (withLanguage ptBR initialState) (Parsed [runEntry])
            (fun _ => offline) "run"))
  = [("To move swiftly.", Some "run-verb-0");
     ("To flow.", Some "run-verb-1");
     ("An act of running.", Some "run-noun-0");
     ("He ran to the door.", Some "run-verb-0-example")]
  /\ translateCallsOf
       (snd (fetchDefinitions initialState (Parsed [runEntry])
               (fun _ => offline) "run")) = [].
Proof.
  split.
  - apply (bulk_translation_calls (withLanguage ptBR initialState)
             (fun _ => offline) "run" [runEntry]); [reflexivity |].
    apply (bool_decide_unpack _). vm_compute. exact I.
  - apply (bulk_translation_calls initialState (fun _ => offline) "run" [runEntry]).
    reflexivity.
Defined.

(** C2 as stated fails twice.  With English as the language a successful
    lookup of an entry with three definitions and an example makes no
    translation call.  With Portuguese, two entries of one head word that
    share a part of speech give their first definitions one key, and one
    call is made for the two definition texts. *)
Lemma bulk_translation_not_for_every_text :
  translateCallsOf
    (snd (fetchDefinitions initialState (Parsed [runEntry])
            (fun _ => offline) "run")) = []
  /\ map asCall (definitionTexts [runEntry] ++ exampleTexts [runEntry])%list
     = [("To move swiftly.", Some "run-verb-0");
        ("To flow.", Some "run-verb-1");
        ("An act of running.", Some "run-noun-0");
        ("He ran to the door.", Some "run-verb-0-example")]
  /\ translateCallsOf
       (snd (fetchDefinitions (withLanguage ptBR initialState) (Parsed bankEntries)
               (fun _ => offline) "bank"))
     = [("The edge of a river.", Some "bank-noun-0")]
  /\ map fst (definitionTexts bankEntries) = ["bank-noun-0"; "bank-noun-0"].
Proof. repeat split. Qed.

(** * Further properties of the code *)

(** ** The history as a list of distinct words *)

Lemma lowerChar_idem (c : ascii) : lowerChar (lowerChar c) = lowerChar c.
Proof. destruct c as [[] [] [] [] [] [] [] []]; reflexivity. Qed.

Lemma toLowerCase_idem (s : string) : toLowerCase (toLowerCase s) = toLowerCase s.
Proof.
  induction s as [| c r IH]; simpl; [reflexivity |].
  rewrite lowerChar_idem, IH. reflexivity.
Qed.

Lemma sameWord_lower (word : string) : sameWord (toLowerCase word) word = true.
Proof. unfold sameWord. rewrite toLowerCase_idem. apply String.eqb_refl. Qed.

Lemma filter_sublist {A : Type} (p : A -> bool) (l : list A) :
  List.filter p l `sublist_of` l.
Proof.
  induction l as [| x r IH]; simpl; [constructor |].
  destruct (p x); [apply sublist_skip | apply sublist_cons]; exact IH.
Qed.

Lemma filter_all {A : Type} (p : A -> bool) (l : list A) :
  (forall x, In x l -> p x = true) -> List.filter p l = l.
Proof.
  intros H. apply forallb_filter_id, forallb_forall. exact H.
Qed.

Lemma filter_shorter {A : Type} (p : A -> bool) (l : list A) (x : A) :
  In x l -> p x = false -> length (List.filter p l) < length l.
Proof.
  induction l as [| y r IH]; simpl; [intros [] |].
  intros [<- | Hin] Hx.
  - rewrite Hx. pose proof (List.filter_length_le p r). lia.
  - specialize (IH Hin Hx). destruct (p y); simpl; lia.
Qed.

(** The entries other than the word searched, in their order. *)
Lemma newHistory_tail (history : list string) (word : string) :
  tl (newHistory history word)
  = firstn 14 (List.filter (fun w => negb (sameWord w word)) history).
Proof. reflexivity. Qed.

Lemma newHistory_distinct (history : list string) (word : string) :
  distinctWords history -> distinctWords (newHistory history word).
Proof.
  unfold distinctWords. intros Hd. rewrite newHistory_unfold. cbn [map].
  apply NoDup_cons. split.
  - intros Hin. apply list_elem_of_In, in_map_iff in Hin as (x & Hx & Hin).
    apply In_firstn, filter_In in Hin as [_ Hne].
    apply negb_true_iff in Hne. unfold sameWord in Hne.
    rewrite Hx, toLowerCase_idem, String.eqb_refl in Hne. discriminate.
  - apply (sublist_NoDup _ (map toLowerCase history)); [exact Hd |].
    apply (fmap_sublist toLowerCase).
    etransitivity; [apply sublist_take | apply filter_sublist].
Qed.

(** X1.  History entries stay distinct up to case.  If no two entries of the
    history are equal up to case, recording a word keeps it so; hence any
    run of searches from such a history (the empty one, for instance)
    leaves a history without two entries equal up to case. *)
Theorem history_stays_distinct :
  (forall (history : list string) (word : string),
     distinctWords history -> distinctWords (newHistory history word))
  /\ (forall (st : App.State) (searches : list (SearchWorld * string)),
        distinctWords (App.history st) ->
        distinctWords (App.history (searchAll st searches))).
Proof.
  split; [apply newHistory_distinct |].
  intros st searches. unfold searchAll. revert st.
  induction searches as [| [w word] rest IH]; intros st Hst; simpl; [exact Hst |].
  apply IH. rewrite handleSearch_history.
  destruct (blank word); [exact Hst | apply newHistory_distinct; exact Hst].
Qed.

Lemma history_stays_distinct_witness :
  distinctWords (newHistory ["world"; "Hello"] "HELLO")
  /\ distinctWords
       (App.history
          (searchAll initialState [(silentWorld, "Hello"); (silentWorld, "hello")])).
Proof.
  destruct history_stays_distinct as [Hnew Hrun]. split.
  - apply (Hnew ["world"; "Hello"] "HELLO").
    apply (bool_decide_unpack _). vm_compute. exact I.
  - apply (Hrun initialState). apply (bool_decide_unpack _). vm_compute. exact I.
Defined.

(** X2.  Recording the same word twice is recording it once.  Searching a
    word again, in any case, right after it was searched leaves the history
    as the first search left it. *)
Theorem newHistory_again (history : list string) (word word' : string) :
  sameWord word' word = true ->
  newHistory (newHistory history word) word' = newHistory history word.
Proof.
  unfold sameWord. intros Hs. apply String.eqb_eq in Hs.
  assert (Hsame : forall w, sameWord w word' = sameWord w word)
    by (intros w; unfold sameWord; rewrite Hs; reflexivity).
  rewrite (newHistory_unfold history word).
  set (kept := firstn 14 (List.filter (fun w => negb (sameWord w word)) history)).
  rewrite newHistory_unfold. rewrite Hs. f_equal.
  cbn [List.filter]. rewrite Hsame, sameWord_lower. cbn [negb].
  assert (Hall : List.filter (fun w => negb (sameWord w word')) kept = kept).
  { apply filter_all. intros x Hx. rewrite Hsame.
    apply In_firstn, filter_In in Hx. tauto. }
  rewrite Hall. apply firstn_all2. unfold kept. apply firstn_le_length.
Qed.

Lemma newHistory_again_witness :
  newHistory (newHistory ["world"] "Hello") "HELLO" = newHistory ["world"] "Hello".
Proof. apply (newHistory_again ["world"] "Hello" "HELLO"). reflexivity. Defined.

(** X3.  A search evicts an entry only from a full history and for a new
    word.  When the history has fewer than 15 entries, or has at most 15
    and already holds the word up to case, every other entry is kept, in
    order.  When it has exactly 15 and none is the word, the oldest entry,
    the last one, is dropped and the others are kept. *)
Theorem newHistory_eviction (history : list string) (word : string) :
  (length history <= 14
   \/ (length history <= 15 /\ exists w, In w history /\ sameWord w word = true) ->
   newHistory history word
   = toLowerCase word
     :: List.filter (fun w => negb (sameWord w word)) history)
  /\ (length history = 15 ->
      (forall w, In w history -> sameWord w word = false) ->
      newHistory history word = toLowerCase word :: removelast history).
Proof.
  split.
  - intros Hcase. rewrite newHistory_unfold. f_equal. apply firstn_all2.
    destruct Hcase as [Hle | (Hle & w & Hin & Hw)].
    + pose proof (List.filter_length_le (fun w => negb (sameWord w word)) history).
      lia.
    + assert (length (List.filter (fun w => negb (sameWord w word)) history)
              < length history).
      { apply (filter_shorter _ _ w Hin). rewrite Hw. reflexivity. }
      lia.
  - intros Hlen Hnew. rewrite newHistory_unfold. f_equal.
    rewrite filter_all by (intros x Hx; rewrite (Hnew x Hx); reflexivity).
    rewrite removelast_firstn_len, Hlen. reflexivity.
Qed.

Lemma newHistory_eviction_witness :
  newHistory ["world"; "HELLO"] "hello" = ["hello"; "world"]
  /\ newHistory ["a1"; "a2"; "a3"; "a4"; "a5"; "a6"; "a7"; "a8"; "a9"; "a10";
                 "a11"; "a12"; "a13"; "a14"; "a15"] "new"
     = ["new"; "a1"; "a2"; "a3"; "a4"; "a5"; "a6"; "a7"; "a8"; "a9"; "a10";
        "a11"; "a12"; "a13"; "a14"].
Proof.
  split.
  - destruct (newHistory_eviction ["world"; "HELLO"] "hello") as [H _].
    apply H. left. simpl. lia.
  - destruct (newHistory_eviction
                ["a1"; "a2"; "a3"; "a4"; "a5"; "a6"; "a7"; "a8"; "a9"; "a10";
                 "a11"; "a12"; "a13"; "a14"; "a15"] "new") as [_ H].
    apply H; [reflexivity |].
    intros w Hw. simpl in Hw.
    repeat (destruct Hw as [<- | Hw]; [reflexivity |]). destruct Hw.
Defined.

(** ** Favourites as a list *)

Lemma newFavorites_NoDup (favorites : list string) (word : string) :
  NoDup favorites -> NoDup (newFavorites favorites word).
Proof.
  intros Hd. unfold newFavorites. destruct (includes favorites word) eqn:Hi.
  - apply (sublist_NoDup _ favorites); [exact Hd | apply filter_sublist].
  - apply NoDup_app. split; [exact Hd |]. split; [| apply NoDup_singleton].
    intros x Hx Hw. apply list_elem_of_singleton in Hw. subst.
    apply includes_elem_of in Hx. congruence.
Qed.

(** X4.  The star flips, and only for the word clicked.  After
    [toggleFavorite(word)] the test [favorites.includes(word)] gives the
    opposite answer, the answer for every other word is unchanged, and a
    list without repetition stays without repetition. *)
Theorem newFavorites_flips (favorites : list string) (word : string) :
  includes (newFavorites favorites word) word = negb (includes favorites word)
  /\ (forall other, other <> word ->
        includes (newFavorites favorites word) other = includes favorites other)
  /\ (NoDup favorites -> NoDup (newFavorites favorites word)).
Proof.
  assert (Hb : forall l w b, (includes l w = true <-> b = true) -> includes l w = b).
  { intros l w b H. destruct (includes l w), b; try reflexivity.
    - symmetry. apply H. reflexivity.
    - apply H. reflexivity. }
  split; [| split].
  - apply Hb. rewrite includes_elem_of, elem_of_newFavorites, negb_true_iff.
    destruct (includes favorites word) eqn:Hi.
    + split; [intros [_ H]; contradiction | discriminate].
    + split; [reflexivity | intros _; right; reflexivity].
  - intros other Hne. apply Hb.
    rewrite !includes_elem_of, elem_of_newFavorites.
    destruct (includes favorites word); [tauto |].
    split; [intros [H | H]; [exact H | contradiction] | auto].
  - apply newFavorites_NoDup.
Qed.

Lemma newFavorites_flips_witness :
  NoDup (newFavorites ["run"; "walk"] "run").
Proof.
  apply (newFavorites_flips ["run"; "walk"] "run").
  apply (bool_decide_unpack _). vm_compute. exact I.
Defined.

(** ** More on the related-word aggregation *)

Lemma descending_app (l1 l2 : list RelatedWord.t) (x y : RelatedWord.t) :
  descending (l1 ++ l2) -> In x l1 -> In y l2 ->
  (RelatedWord.score y <= RelatedWord.score x)%Z.
Proof.
  unfold descending. induction l1 as [| z r IH]; simpl; [intros _ [] |].
  intros Hs Hx Hy. apply StronglySorted_inv in Hs as [Hr Hz].
  destruct Hx as [<- | Hx]; [| apply IH; assumption].
  rewrite List.Forall_forall in Hz. apply Hz, in_or_app. right. exact Hy.
Qed.

(** In a descending list, what a prefix leaves out scores no more than what
    it holds. *)
Lemma descending_firstn_top (n : nat) (l : list RelatedWord.t)
    (x y : RelatedWord.t) :
  descending l -> In x (firstn n l) -> In y l -> ~ In y (firstn n l) ->
  (RelatedWord.score y <= RelatedWord.score x)%Z.
Proof.
  intros Hd Hx Hy Hn. rewrite <- (firstn_skipn n l) in Hd, Hy.
  apply in_app_or in Hy as [Hy | Hy]; [contradiction |].
  exact (descending_app _ _ x y Hd Hx Hy).
Qed.

Lemma combined_unfold (synonyms triggers adjectives : list RelatedWord.t) :
  combined synonyms triggers adjectives
  = firstn 30 (sortByScore (keepFirst [] (synonyms ++ triggers ++ adjectives)%list)).
Proof. unfold combined. rewrite filterIndexed_keepFirst. reflexivity. Qed.

(** X5.  The cut keeps the best scores.  An entry that survives the removal
    of duplicates and is cut by the limit of 30 scores no more than any
    entry that is displayed. *)
Theorem combined_keeps_top (synonyms triggers adjectives : list RelatedWord.t)
    (x y : RelatedWord.t) :
  In x (combined synonyms triggers adjectives) ->
  In y (keepFirst [] (synonyms ++ triggers ++ adjectives)%list) ->
  ~ In y (combined synonyms triggers adjectives) ->
  (RelatedWord.score y <= RelatedWord.score x)%Z.
Proof.
  rewrite combined_unfold. intros Hx Hy Hn.
  apply (descending_firstn_top 30 _ x y (sortByScore_descending _) Hx); [| exact Hn].
  apply (Permutation_in _ (Permutation_sym (sortByScore_perm _))). exact Hy.
Qed.

(** X6.  Nothing is lost below the limit.  When the three lists hold at most
    30 different words, every word of every list is displayed. *)
Theorem combined_complete (synonyms triggers adjectives : list RelatedWord.t) :
  length (keepFirst [] (synonyms ++ triggers ++ adjectives)%list) <= 30 ->
  forall x, In x (synonyms ++ triggers ++ adjectives)%list ->
            In (RelatedWord.word x)
               (map RelatedWord.word (combined synonyms triggers adjectives)).
Proof.
  intros Hlen x Hx. rewrite combined_unfold.
  rewrite firstn_all2
    by (rewrite (Permutation_length (sortByScore_perm _)); exact Hlen).
  apply (Permutation_in _
           (Permutation_sym (Permutation_map RelatedWord.word (sortByScore_perm _)))).
  apply keepFirst_complete; [exact Hx | reflexivity].
Qed.

Lemma combined_complete_witness :
  In "sprint"
     (map RelatedWord.word
        (combined [RelatedWord.mk "jog" 500] [RelatedWord.mk "sprint" 900]
                  [RelatedWord.mk "jog" 700])).
Proof.
  apply (combined_complete [RelatedWord.mk "jog" 500] [RelatedWord.mk "sprint" 900]
           [RelatedWord.mk "jog" 700]
           ltac:(simpl; lia) (RelatedWord.mk "sprint" 900)).
  simpl. right. left. reflexivity.
Defined.

Lemma combined_keeps_top_witness :
  (RelatedWord.score (RelatedWord.mk "0" 0)
   <= RelatedWord.score (RelatedWord.mk "30" 30))%Z.
Proof.
  apply (combined_keeps_top
           (map (fun i => RelatedWord.mk (decimal i) (Z.of_nat i)) (seq 0 31)) [] []
           (RelatedWord.mk "30" 30) (RelatedWord.mk "0" 0)).
  - vm_compute. left. reflexivity.
  - vm_compute. left. reflexivity.
  - vm_compute. intros H.
    repeat (destruct H as [H | H]; [discriminate H |]). exact H.
Defined.

Lemma keepFirst_first (seen : list string) (l : list RelatedWord.t)
    (x : RelatedWord.t) :
  In x (keepFirst seen l) ->
  exists l1 l2, l = (l1 ++ x :: l2)%list
                /\ ~ In (RelatedWord.word x) (map RelatedWord.word l1).
Proof.
  revert seen. induction l as [| y r IH]; intros seen; simpl; [intros [] |].
  destruct (existsb (String.eqb (RelatedWord.word y)) seen) eqn:Hy.
  - intros Hin. pose proof (keepFirst_fresh _ _ _ Hin) as [_ Hfresh].
    destruct (IH _ Hin) as (l1 & l2 & -> & Hn).
    exists (y :: l1), l2. split; [reflexivity |]. simpl.
    intros [He | Hc]; [| exact (Hn Hc)]. rewrite He in Hy. congruence.
  - intros [<- | Hin].
    + exists [], r. split; [reflexivity | intros []].
    + pose proof (keepFirst_fresh _ _ _ Hin) as [_ Hfresh].
      destruct (IH _ Hin) as (l1 & l2 & -> & Hn).
      exists (y :: l1), l2. split; [reflexivity |]. simpl.
      intros [He | Hc]; [| exact (Hn Hc)].
      simpl in Hfresh. rewrite He, String.eqb_refl in Hfresh. discriminate.
Qed.

(** X7.  The first entry of a word wins.  Every displayed entry is the first
    entry of its word in the concatenation synonyms, triggers, adjectives;
    so when a word is among the synonyms, the entry displayed for it is a
    synonym entry, whatever score the triggers or adjectives give it. *)
Theorem combined_first_wins (synonyms triggers adjectives : list RelatedWord.t)
    (x : RelatedWord.t) :
  In x (combined synonyms triggers adjectives) ->
  (exists l1 l2,
     (synonyms ++ triggers ++ adjectives)%list = (l1 ++ x :: l2)%list
     /\ ~ In (RelatedWord.word x) (map RelatedWord.word l1))
  /\ (forall y, In y synonyms -> RelatedWord.word y = RelatedWord.word x ->
                In x synonyms).
Proof.
  rewrite combined_unfold. intros Hx. apply In_firstn in Hx.
  apply (Permutation_in _ (sortByScore_perm _)) in Hx.
  destruct (keepFirst_first _ _ _ Hx) as (l1 & l2 & Heq & Hn).
  split; [exists l1, l2; split; assumption |].
  intros y Hy Hw. symmetry in Heq.
  apply app_eq_app in Heq as [l [[H1 H2] | [H1 H2]]].
  - exfalso. apply Hn. rewrite H1, map_app, in_app_iff. left.
    rewrite <- Hw. apply in_map. exact Hy.
  - destruct l as [| z l'].
    + exfalso. apply Hn. rewrite app_nil_r in H1. subst l1.
      rewrite <- Hw. apply in_map. exact Hy.
    + injection H2 as -> _. rewrite H1. apply in_or_app. right. left. reflexivity.
Qed.

Lemma combined_first_wins_witness :
  In (RelatedWord.mk "jog" 500) [RelatedWord.mk "jog" 500].
Proof.
  destruct (combined_first_wins [RelatedWord.mk "jog" 500]
              [RelatedWord.mk "jog" 900] [] (RelatedWord.mk "jog" 500)) as [_ H].
  - simpl. left. reflexivity.
  - apply (H (RelatedWord.mk "jog" 500)); [simpl; left |]; reflexivity.
Defined.

(** ** The thesaurus panel *)

Lemma combined_length (s t a : list RelatedWord.t) : length (combined s t a) <= 30.
Proof. unfold combined. apply firstn_le_length. Qed.

Lemma combined_descending (s t a : list RelatedWord.t) : descending (combined s t a).
Proof.
  rewrite combined_unfold. apply descending_firstn, sortByScore_descending.
Qed.

(** X8.  The panel hides no related word and graphs the best ten.  After a
    successful aggregation the word cloud ([slice(0, 50)]) holds every
    related word of the state, and a related word left out of the
    similarity graph ([slice(0, 10)]) scores no more than any word in it. *)
Theorem thesaurus_panel (word : string) (s t a : list RelatedWord.t)
    (st : App.State) :
  let st' := fst (fetchRelatedWords word (Words s) (Words t) (Words a)) st in
  wordCloud st' = App.relatedWords st'
  /\ (forall x y, In x (similarityGraph st') -> In y (App.relatedWords st') ->
                  ~ In y (similarityGraph st') ->
                  (RelatedWord.score y <= RelatedWord.score x)%Z).
Proof.
  intros st'. unfold wordCloud, similarityGraph. subst st'.
  rewrite fetchRelatedWords_success. split.
  - apply firstn_all2. pose proof (combined_length s t a). lia.
  - intros x y. apply descending_firstn_top, combined_descending.
Qed.

Lemma div200_bounds (score : Z) :
  (200 * (score / 200) <= score < 200 * (score / 200) + 200)%Z.
Proof.
  pose proof (Z.div_mod score 200 ltac:(lia)).
  pose proof (Z.mod_pos_bound score 200 ltac:(lia)). lia.
Qed.

(** X9.  The size class of a chip.  For a score that is not negative the
    index into [sizeClasses] is in range: the class is text-sm below 200,
    text-base below 400, text-lg below 600 and text-xl from 600 on.  For a
    negative score the index is negative and the class is undefined. *)
Theorem sizeClass_by_score (score : Z) :
  ((0 <= score)%Z ->
   sizeClass score
   = Some (if (score <? 200)%Z then "text-sm"
           else if (score <? 400)%Z then "text-base"
           else if (score <? 600)%Z then "text-lg" else "text-xl"))
  /\ ((score < 0)%Z -> sizeClass score = None).
Proof.
  pose proof (div200_bounds score) as Hq. unfold sizeClass, strength.
  split; intros Hs.
  - assert (Hcase : (score / 200 = 0 \/ score / 200 = 1 \/ score / 200 = 2
                     \/ 3 <= score / 200)%Z) by lia.
    destruct (Z.ltb_spec score 200); [| destruct (Z.ltb_spec score 400);
      [| destruct (Z.ltb_spec score 600)]].
    + replace (score / 200)%Z with 0%Z by lia. reflexivity.
    + replace (score / 200)%Z with 1%Z by lia. reflexivity.
    + replace (score / 200)%Z with 2%Z by lia. reflexivity.
    + replace (Z.min 3 (score / 200)) with 3%Z by lia. reflexivity.
  - destruct (Z.ltb_spec (Z.min 3 (score / 200)) 0); [reflexivity | lia].
Qed.

Lemma sizeClass_by_score_witness :
  sizeClass 450 = Some "text-lg" /\ sizeClass (-1) = None.
Proof.
  split.
  - apply (sizeClass_by_score 450). lia.
  - apply (sizeClass_by_score (-1)). lia.
Defined.

Lemma thesaurus_panel_witness :
  (RelatedWord.score (RelatedWord.mk "0" 0)
   <= RelatedWord.score (RelatedWord.mk "10" 10))%Z.
Proof.
  destruct (thesaurus_panel "run"
              (map (fun i => RelatedWord.mk (decimal i) (Z.of_nat i)) (seq 0 11))
              [] [] initialState) as [_ H].
  apply (H (RelatedWord.mk "10" 10) (RelatedWord.mk "0" 0)).
  - vm_compute. left. reflexivity.
  - vm_compute. do 10 right. left. reflexivity.
  - vm_compute. intros Hin.
    repeat (destruct Hin as [Hin | Hin]; [discriminate Hin |]). exact Hin.
Defined.

(** ** The word display *)

Lemma find_ext_in {A : Type} (p q : A -> bool) (l : list A) :
  (forall x, In x l -> p x = q x) -> List.find p l = List.find q l.
Proof.
  induction l as [| y r IH]; simpl; intros H; [reflexivity |].
  rewrite <- (H y) by auto. destruct (p y); [reflexivity |].
  apply IH. intros x Hx. apply H. auto.
Qed.

(** X10.  The transcription and the audio the word display picks.  A
    transcription is shown exactly when some phonetic has a text; the one
    shown has a text, and has an audio too whenever some phonetic has both.
    The audio button plays the first audio of the list: when every phonetic
    that has an audio has a text, it is the audio of the phonetic whose
    transcription is shown. *)
Theorem shownPhonetic_spec (phonetics : list Phonetic.t) :
  (shownPhonetic phonetics = None
   <-> forall p, In p phonetics -> present (Phonetic.text p) = false)
  /\ (forall p, shownPhonetic phonetics = Some p ->
        In p phonetics /\ present (Phonetic.text p) = true
        /\ ((exists q, In q phonetics /\ present (Phonetic.audio q) = true
                       /\ present (Phonetic.text q) = true) ->
            present (Phonetic.audio p) = true))
  /\ ((forall q, In q phonetics -> present (Phonetic.audio q) = true ->
                 present (Phonetic.text q) = true) ->
      forall url, shownAudio phonetics = Some url ->
      exists p, shownPhonetic phonetics = Some p /\ Phonetic.audio p = Some url).
Proof.
  unfold shownPhonetic, shownAudio. split; [| split].
  - destruct (List.find (fun p => present (Phonetic.audio p)
                                  && present (Phonetic.text p)) phonetics)
      as [p|] eqn:Hboth.
    + split; [discriminate |]. intros H. apply find_some in Hboth as [Hin Hp].
      apply andb_true_iff in Hp as [_ Hp]. rewrite (H p Hin) in Hp. discriminate.
    + split.
      * intros Hn p Hin. exact (find_none _ _ Hn p Hin).
      * intros H. destruct (List.find (fun p => present (Phonetic.text p)) phonetics)
          as [p|] eqn:Ht; [| reflexivity].
        apply find_some in Ht as [Hin Hp]. rewrite (H p Hin) in Hp. discriminate.
  - intros p.
    destruct (List.find (fun p => present (Phonetic.audio p)
                                  && present (Phonetic.text p)) phonetics)
      as [p'|] eqn:Hboth.
    + intros [= ->]. apply find_some in Hboth as [Hin Hp].
      apply andb_true_iff in Hp as [Ha Ht]. auto.
    + intros Ht. apply find_some in Ht as [Hin Hp]. split; [exact Hin |].
      split; [exact Hp |]. intros (q & Hq & Ha & Hqt). exfalso.
      pose proof (find_none _ _ Hboth q Hq) as Hf. cbn beta in Hf.
      rewrite Ha, Hqt in Hf. discriminate.
  - intros Hall url.
    rewrite (find_ext_in
               (fun p => present (Phonetic.audio p) && present (Phonetic.text p))
               (fun p => present (Phonetic.audio p)) phonetics).
    + destruct (List.find (fun p => present (Phonetic.audio p)) phonetics) as [p|];
        [| discriminate].
      intros Hurl. exists p. split; [reflexivity | exact Hurl].
    + intros x Hx. destruct (present (Phonetic.audio x)) eqn:Ha; [| reflexivity].
      rewrite (Hall x Hx Ha). reflexivity.
Qed.

Lemma shownPhonetic_spec_witness :
  exists p,
    shownPhonetic [Phonetic.mk (Some "r-n") None;
                   Phonetic.mk (Some "run") (Some "run-uk.mp3")] = Some p
    /\ Phonetic.audio p = Some "run-uk.mp3".
Proof.
  destruct (shownPhonetic_spec [Phonetic.mk (Some "r-n") None;
                                Phonetic.mk (Some "run") (Some "run-uk.mp3")])
    as (_ & _ & H).
  apply H; [| reflexivity].
  intros q Hq _. simpl in Hq. destruct Hq as [<- | [<- | []]]; reflexivity.
Defined.

(** The audio played can belong to another phonetic than the transcription
    shown. *)
Example shownAudio_of_another :
  shownPhonetic [Phonetic.mk None (Some "a.mp3"); Phonetic.mk (Some "run") None]
  = Some (Phonetic.mk (Some "run") None)
  /\ shownAudio [Phonetic.mk None (Some "a.mp3"); Phonetic.mk (Some "run") None]
     = Some "a.mp3".
Proof. split; reflexivity. Qed.

(** ** The examples panel *)

Lemma exampleOf_present (word partOfSpeech : string) (l : list (nat * Def.t)) :
  (forall d, In d l -> hasExample (snd d) = true) ->
  map fst (flat_map (exampleOf word partOfSpeech) l)
  = map (fun d => exampleKey word partOfSpeech (fst d)) l.
Proof.
  induction l as [| d r IH]; intros H; [reflexivity |].
  cbn [flat_map map]. rewrite map_app, IH by (intros x Hx; apply H; right; exact Hx).
  specialize (H d (or_introl eq_refl)). unfold hasExample, present in H.
  unfold exampleOf. destruct (Def.example (snd d)) as [e|]; [| discriminate].
  rewrite H. reflexivity.
Qed.

(** X11.  The keys the examples panel reads.  When every definition of a
    meaning has an example, the keys under which the panel looks up the
    translations of its cards are the keys under which the bulk translation
    stored the examples of that meaning, card by card.  (The panel numbers
    the definitions that have an example, the bulk translation numbers all
    of them.) *)
Theorem examplesPanel_keys (word : string) (meaning : Meaning.t) :
  forallb hasExample (Meaning.definitions meaning) = true ->
  examplesPanelCards meaning = Meaning.definitions meaning
  /\ map fst (examplesPanelKeys word meaning)
     = map fst (flat_map (exampleOf word (Meaning.partOfSpeech meaning))
                         (indexed (Meaning.definitions meaning))).
Proof.
  intros Hall. rewrite forallb_forall in Hall.
  assert (Hf : List.filter hasExample (Meaning.definitions meaning)
               = Meaning.definitions meaning) by (apply filter_all; exact Hall).
  unfold examplesPanelCards, examplesPanelKeys. rewrite Hf. split; [reflexivity |].
  rewrite exampleOf_present.
  - rewrite map_map. reflexivity.
  - intros d Hd. apply Hall. unfold indexed in Hd. destruct d as [i d].
    apply in_combine_r in Hd. exact Hd.
Qed.

Lemma examplesPanel_keys_witness :
  map fst (examplesPanelKeys "run"
             (Meaning.mk "verb" [Def.mk "To move." (Some "He ran.");
                                 Def.mk "To flow." (Some "Tears ran.")]))
  = ["run-verb-0-example"; "run-verb-1-example"].
Proof.
  apply (examplesPanel_keys "run"
           (Meaning.mk "verb" [Def.mk "To move." (Some "He ran.");
                               Def.mk "To flow." (Some "Tears ran.")])).
  reflexivity.
Defined.

(** With a definition that has no example before one that has, the panel
    reads the key of the former for the card of the latter. *)
Example examplesPanel_reads_another_key :
  map fst (examplesPanelKeys "run"
             (Meaning.mk "verb" [Def.mk "To flow." None;
                                 Def.mk "To move." (Some "He ran.")]))
  = ["run-verb-0-example"]
  /\ map fst (exampleTexts
                [Entry.mk "run"
                   [Meaning.mk "verb" [Def.mk "To flow." None;
                                       Def.mk "To move." (Some "He ran.")]]])
     = ["run-verb-1-example"].
Proof. split; reflexivity. Qed.

(** ** The cache across renders *)

Lemma js_or_mainWordKey (word text : string) :
  js_or (Some (mainWordKey word)) text = mainWordKey word.
Proof. reflexivity. Qed.

Lemma App_cache_setTranslation (t : option Translation.t) (s : App.State) :
  App.translationCache (App.setTranslation t s) = App.translationCache s.
Proof. destruct s; reflexivity. Qed.

Lemma App_cache_setTranslationCache (c : gmap string Cache.entry) (s : App.State) :
  App.translationCache (App.setTranslationCache c s) = c.
Proof. destruct s; reflexivity. Qed.

(** X12.  A head word is translated once a day.  Under Portuguese, when
    [fetchTranslation] finds no valid entry for the word and the service
    answers with a text, the next render's [fetchTranslation] of the same
    word, less than 24 hours after the write, sends no request: it reads
    the cache once and shows the same text. *)
Theorem fetchTranslation_second_time (st : App.State)
    (worldOf worldOf' : string -> TranslateWorld)
    (word translatedText : string) (ok : bool) :
  App.language st = ptBR ->
  cache_lookup (App.translationCache st) (mainWordKey word)
               (clock (worldOf (mainWordKey word))) = None ->
  bare (worldOf (mainWordKey word)) = Some true ->
  reply (worldOf (mainWordKey word))
  = Some (ok, ResponseData (Some translatedText)) ->
  truthy translatedText = true ->
  (clock (worldOf' (mainWordKey word))
   - clock_store (worldOf (mainWordKey word)) < DAY_MS)%Z ->
  let st1 := fst (fetchTranslation st worldOf word) st in
  App.translation st1 = Some (Translation.mk translatedText Portugues)
  /\ snd (fetchTranslation st1 worldOf' word)
     = [TranslateCall word (Some (mainWordKey word)); ReadCache (mainWordKey word)]
  /\ App.translation (fst (fetchTranslation st1 worldOf' word) st1)
     = Some (Translation.mk translatedText Portugues).
Proof.
  intros Hl Hmiss Hbare Hreply Hv Hfresh st1.
  destruct (translateText_miss_stores (App.translationCache st)
              (worldOf (mainWordKey word)) word (Some (mainWordKey word)) ok
              translatedText Hmiss Hbare Hreply Hv) as [Hret Hwrite].
  rewrite js_or_mainWordKey in Hwrite.
  assert (Hst1 : st1
                 = App.setTranslation (Some (Translation.mk translatedText Portugues))
                     (App.setTranslationCache
                        (cache_store (App.translationCache st) (mainWordKey word)
                           translatedText (clock_store (worldOf (mainWordKey word))))
                        st)).
  { subst st1. unfold fetchTranslation. rewrite Hl. cbn [fst].
    unfold writeCache. rewrite Hret, Hwrite. reflexivity. }
  assert (Hl1 : App.language st1 = ptBR) by (rewrite Hst1; destruct st; exact Hl).
  assert (Hc1 : App.translationCache st1
                = cache_store (App.translationCache st) (mainWordKey word)
                    translatedText (clock_store (worldOf (mainWordKey word))))
    by (rewrite Hst1; destruct st; reflexivity).
  assert (Hhit : translateText ptBR (App.translationCache st1)
                   (worldOf' (mainWordKey word)) word (Some (mainWordKey word))
                 = {| returned := translatedText; cacheWrite := None;
                      effects := [ReadCache (mainWordKey word)] |}).
  { rewrite <- (js_or_mainWordKey word word) at 3. apply translateText_hit.
    rewrite js_or_mainWordKey, Hc1, cache_lookup_store.
    destruct (Z.ltb_spec
                (clock (worldOf' (mainWordKey word))
                 - clock_store (worldOf (mainWordKey word))) DAY_MS);
      [reflexivity | lia]. }
  split; [rewrite Hst1; destruct st; reflexivity |].
  unfold fetchTranslation. rewrite Hl1, Hhit. cbn [fst snd effects returned].
  split; [reflexivity |].
  unfold writeCache. cbn [cacheWrite]. destruct st1; reflexivity.
Qed.

Lemma fetchTranslation_second_time_witness :
  snd (fetchTranslation
         (fst (fetchTranslation (withLanguage ptBR initialState)
                 (allAnswering "correr" 0) "run")
              (withLanguage ptBR initialState))
         (allAnswering "correr" 1000) "run")
  = [TranslateCall "run" (Some "main-word-run"); ReadCache "main-word-run"].
Proof.
  apply (fetchTranslation_second_time (withLanguage ptBR initialState)
           (allAnswering "correr" 0) (allAnswering "correr" 1000)
           "run" "correr" true); reflexivity.
Defined.

(** Each write of a call made from one render is that render's cache with
    one more binding. *)
Lemma writeCache_atMostOneMore (language : Language)
    (c0 : gmap string Cache.entry) (w : TranslateWorld) (text : string)
    (cacheKey : option string) (s : App.State) :
  atMostOneMore c0 (App.translationCache s) ->
  atMostOneMore c0
    (App.translationCache
       (writeCache (translateText language c0 w text cacheKey) s)).
Proof.
  intros Hs. unfold writeCache.
  destruct (translateText_write language c0 w text cacheKey) as [-> | [v ->]].
  - exact Hs.
  - rewrite App_cache_setTranslationCache. right. eauto.
Qed.

Lemma writeCaches_atMostOneMore (language : Language)
    (c0 : gmap string Cache.entry) (worldOf : string -> TranslateWorld)
    (kvs : list (string * string)) (s : App.State) :
  atMostOneMore c0 (App.translationCache s) ->
  atMostOneMore c0
    (App.translationCache
       (writeCaches (map (translateEntry language c0 worldOf) kvs) s)).
Proof.
  unfold writeCaches. revert s.
  induction kvs as [| kv r IH]; intros s Hs; simpl; [exact Hs |].
  apply IH. apply writeCache_atMostOneMore. exact Hs.
Qed.

Lemma bulk_atMostOneMore (st : App.State) (worldOf : string -> TranslateWorld)
    (data : list Entry.t) (s : App.State) :
  atMostOneMore (App.translationCache st) (App.translationCache s) ->
  atMostOneMore (App.translationCache st)
    (App.translationCache (fst (translateDefinitionsAndExamples st worldOf data) s)).
Proof.
  intros Hs. unfold translateDefinitionsAndExamples.
  destruct (App.language st) eqn:Hl; [exact Hs |]. cbn [fst].
  match goal with
  | |- context [writeCaches ?ex (writeCaches ?de s)] =>
      assert (H2 : atMostOneMore (App.translationCache st)
                     (App.translationCache (writeCaches ex (writeCaches de s))))
        by (do 2 apply writeCaches_atMostOneMore; exact Hs);
      destruct (writeCaches ex (writeCaches de s)); exact H2
  end.
Qed.

Lemma fetchDefinitions_atMostOneMore (st : App.State) (r : DictionaryReply)
    (worldOf : string -> TranslateWorld) (word : string) (s : App.State) :
  atMostOneMore (App.translationCache st) (App.translationCache s) ->
  atMostOneMore (App.translationCache st)
    (App.translationCache (fst (fetchDefinitions st r worldOf word) s)).
Proof.
  intros Hs. destruct r; simpl; try (destruct s; exact Hs).
  assert (H : atMostOneMore (App.translationCache st)
                (App.translationCache
                   (fst (translateDefinitionsAndExamples st worldOf data)
                      (App.setDefinitions data
                         (App.setError None (App.setLoading true s))))))
    by (apply bulk_atMostOneMore; destruct s; exact Hs).
  destruct (fst (translateDefinitionsAndExamples st worldOf data)
              (App.setDefinitions data (App.setError None (App.setLoading true s))));
    exact H.
Qed.

Lemma fetchTranslation_atMostOneMore (st : App.State)
    (worldOf : string -> TranslateWorld) (word : string) (s : App.State) :
  atMostOneMore (App.translationCache st) (App.translationCache s) ->
  atMostOneMore (App.translationCache st)
    (App.translationCache (fst (fetchTranslation st worldOf word) s)).
Proof.
  intros Hs. unfold fetchTranslation.
  destruct (App.language st) eqn:Hl; cbn [fst].
  - rewrite App_cache_setTranslation. exact Hs.
  - rewrite App_cache_setTranslation.
    apply writeCache_atMostOneMore. exact Hs.
Qed.

(** X13.  One search caches at most one translation.  Every [translateText]
    call of a search builds the new cache from the cache of the render that
    created it, and [setTranslationCache] replaces the state: the cache the
    next render sees is the old one, or the old one with a single binding
    more.  So of two keys that were not cached before the search, at most
    one is cached after it, whatever the service answered. *)
Theorem search_caches_at_most_one (st : App.State) (w : SearchWorld)
    (searchWord : string) :
  atMostOneMore (App.translationCache st)
    (App.translationCache (fst (handleSearch st w searchWord)))
  /\ (forall k1 k2 : string,
        k1 <> k2 ->
        App.translationCache st !! k1 = None ->
        App.translationCache st !! k2 = None ->
        ~ (is_Some (App.translationCache (fst (handleSearch st w searchWord)) !! k1)
           /\ is_Some (App.translationCache (fst (handleSearch st w searchWord)) !! k2))).
Proof.
  assert (H : atMostOneMore (App.translationCache st)
                (App.translationCache (fst (handleSearch st w searchWord)))).
  { unfold handleSearch. destruct (negb (truthy (trim searchWord)));
      [left; reflexivity |]. cbn [fst].
    apply fetchTranslation_atMostOneMore.
    match goal with
    | |- context [fst (fetchRelatedWords ?sw ?a ?b ?d) ?s] =>
        destruct (fetchRelatedWords_frame sw a b d s) as (rel & ->)
    end.
    assert (H : atMostOneMore (App.translationCache st)
                  (App.translationCache
                     (fst (fetchDefinitions st (dictionary w) (translations w)
                             searchWord)
                        (fst (addToHistory st searchWord)
                           (App.setWord searchWord st)))))
      by (apply fetchDefinitions_atMostOneMore; left; destruct st; reflexivity).
    destruct (fst (fetchDefinitions st (dictionary w) (translations w) searchWord)
                (fst (addToHistory st searchWord) (App.setWord searchWord st)));
      exact H. }
  split; [exact H |].
  intros k1 k2 Hne H1 H2 [[e1 He1] [e2 He2]].
  destruct H as [Heq | (k & v & t & Heq)]; rewrite Heq in He1, He2.
  - congruence.
  - unfold cache_store in *.
    destruct (decide (k = k1)) as [-> | Hk1].
    + rewrite lookup_insert_ne in He2 by exact Hne. congruence.
    + rewrite lookup_insert_ne in He1 by exact Hk1. congruence.
Qed.

Lemma search_caches_at_most_one_witness :
  let after :=
    handleSearch (withLanguage ptBR initialState)
      {| dictionary := Parsed [runEntry]; synonyms := Words [];
         triggers := Words []; adjectives := Words [];
         translations := allAnswering "texto" 0 |} "run" in
  ~ (is_Some (App.translationCache (fst after) !! "run-verb-0")
     /\ is_Some (App.translationCache (fst after) !! "run-verb-1")).
Proof.
  intros after.
  destruct (search_caches_at_most_one (withLanguage ptBR initialState)
              {| dictionary := Parsed [runEntry]; synonyms := Words [];
                 triggers := Words []; adjectives := Words [];
                 translations := allAnswering "texto" 0 |} "run") as [_ H].
  apply (H "run-verb-0" "run-verb-1"); [discriminate | reflexivity | reflexivity].
Defined.

(** Five translations are fetched by this search, one binding is cached
    (which one depends on the response that lands last). *)
Example search_caches_one_of_five :
  let w := {| dictionary := Parsed [runEntry]; synonyms := Words [];
              triggers := Words []; adjectives := Words [];
              translations := allAnswering "texto" 0 |} in
  let after := handleSearch (withLanguage ptBR initialState) w "run" in
  length (List.filter (fun e => match e with
                                | Fetch (MyMemoryGet _ _) => true
                                | _ => false
                                end) (snd after)) = 5
  /\ length (map_to_list (App.translationCache (fst after))) = 1.
Proof. split; vm_compute; reflexivity. Qed.

(** ** The translations the cards show *)

Lemma obj_get_In (o : JsObject) (k v : string) :
  NoDup (map fst o) -> In (k, v) o -> obj_get o k = Some v.
Proof.
  induction o as [| [k' v'] r IH]; simpl; [intros _ [] |].
  intros Hd Hin. apply NoDup_cons in Hd as [Hk Hd].
  destruct Hin as [[= -> ->] | Hin].
  - rewrite String.eqb_refl. reflexivity.
  - destruct (String.eqb_spec k' k) as [-> | Hne]; [| apply IH; assumption].
    exfalso. apply Hk, list_elem_of_In, in_map_iff. exists (k, v). auto.
Qed.

Lemma js_or_defKey (word partOfSpeech text : string) (i : nat) :
  js_or (Some (defKey word partOfSpeech i)) text = defKey word partOfSpeech i.
Proof. unfold defKey. destruct word; reflexivity. Qed.

Lemma resultsObject_run (language : Language) (c : gmap string Cache.entry)
    (worldOf : string -> TranslateWorld) (kvs : list (string * string)) :
  NoDup (map fst kvs) ->
  resultsObject (map (translateEntry language c worldOf) kvs)
  = map (fun kv => (fst kv,
                    returned (translateText language c (worldOf (fst kv))
                                (snd kv) (Some (fst kv))))) kvs.
Proof.
  intros Hd. unfold resultsObject. rewrite map_map. cbn [translateEntry fst snd].
  apply (obj_assign_all_fresh _ []). cbn [app]. rewrite map_map. exact Hd.
Qed.

Lemma App_translations_of_bulk (b : bool) (ex de : JsObject) (s : App.State) :
  App.definitionTranslations
    (App.setLoading b (App.setExampleTranslations ex
                         (App.setDefinitionTranslations de s))) = de
  /\ App.exampleTranslations
       (App.setLoading b (App.setExampleTranslations ex
                            (App.setDefinitionTranslations de s))) = ex.
Proof. destruct s; split; reflexivity. Qed.

(** X14.  Every card shows the translation of its own text.  Under Portuguese,
    after a lookup whose definition keys are pairwise distinct, the object
    the cards read holds, under the key of each definition, what
    [translateText] returned for the text of that definition, and likewise
    for each example; the card shows it when it is not empty.  So a
    definition whose translation failed is shown with its English text
    under the Portuguese label. *)
Theorem bulk_translations_shown (st : App.State)
    (worldOf : string -> TranslateWorld) (word : string) (data : list Entry.t) :
  App.language st = ptBR ->
  NoDup (map fst (definitionTexts data)) ->
  let st' := fst (fetchDefinitions st (Parsed data) worldOf word) st in
  let answer := fun k text =>
    returned (translateText ptBR (App.translationCache st) (worldOf k) text (Some k)) in
  (forall k text, In (k, text) (definitionTexts data) ->
     obj_get (App.definitionTranslations st') k = Some (answer k text)
     /\ shownTranslation st' (App.definitionTranslations st') k
        = (if truthy (answer k text) then Some (answer k text) else None))
  /\ (forall k text, In (k, text) (exampleTexts data) ->
        obj_get (App.exampleTranslations st') k = Some (answer k text)
        /\ shownTranslation st' (App.exampleTranslations st') k
           = (if truthy (answer k text) then Some (answer k text) else None))
  /\ (forall k text, In (k, text) (definitionTexts data) ->
        cache_lookup (App.translationCache st) k (clock (worldOf k)) = None ->
        translationFailsSeen (worldOf k) = true ->
        obj_get (App.definitionTranslations st') k = Some text).
Proof.
  intros Hl Hd st' answer.
  pose proof (exampleTexts_NoDup data Hd) as He.
  assert (Hlang : App.language st' = ptBR).
  { pose proof (fetchDefinitions_frame st (Parsed data) worldOf word st) as Hf.
    cbn zeta in Hf. destruct Hf as (_ & _ & _ & _ & _ & Hf).
    subst st'. rewrite Hf. exact Hl. }
  assert (Hobj : App.definitionTranslations st'
                 = map (fun kv => (fst kv, answer (fst kv) (snd kv)))
                       (definitionTexts data)
                 /\ App.exampleTranslations st'
                    = map (fun kv => (fst kv, answer (fst kv) (snd kv)))
                          (exampleTexts data)).
  { subst st'. unfold fetchDefinitions, translateDefinitionsAndExamples.
    rewrite Hl, collectTexts_flat. cbn [fst snd].
    rewrite (obj_assign_all_fresh (definitionTexts data) []) by exact Hd.
    rewrite (obj_assign_all_fresh (exampleTexts data) []) by exact He.
    cbn [app]. rewrite !resultsObject_run by assumption.
    apply App_translations_of_bulk. }
  destruct Hobj as [Hdo Heo].
  assert (Hget : forall kvs k text,
             NoDup (map fst kvs) -> In (k, text) kvs ->
             obj_get (map (fun kv => (fst kv, answer (fst kv) (snd kv))) kvs) k
             = Some (answer k text)).
  { intros kvs k text Hn Hin. apply obj_get_In.
    - rewrite map_map. exact Hn.
    - apply in_map_iff. exists (k, text). split; [reflexivity | exact Hin]. }
  split; [| split].
  - intros k text Hin. unfold shownTranslation. rewrite Hlang, Hdo.
    rewrite (Hget _ k text Hd Hin). split; reflexivity.
  - intros k text Hin. unfold shownTranslation. rewrite Hlang, Heo.
    rewrite (Hget _ k text He Hin). split; reflexivity.
  - intros k text Hin Hmiss Hfail. rewrite Hdo, (Hget _ k text Hd Hin).
    f_equal. unfold answer.
    apply (translateText_failure_seen ptBR (App.translationCache st) (worldOf k)
             text (Some k)); [| exact Hfail].
    assert (Hk : js_or (Some k) text = k).
    { apply in_map with (f := fst) in Hin. cbn [fst] in Hin.
      apply definitionTexts_key in Hin as (w' & p' & i' & Hk).
      rewrite Hk. apply js_or_defKey. }
    rewrite Hk. exact Hmiss.
Qed.

Lemma bulk_translations_shown_witness :
  obj_get
    (App.definitionTranslations
       (fst (fetchDefinitions (withLanguage ptBR initialState) (Parsed [runEntry])
               (fun _ => offline) "run")
            (withLanguage ptBR initialState)))
    "run-verb-1"
  = Some "To flow.".
Proof.
  destruct (bulk_translations_shown (withLanguage ptBR initialState)
              (fun _ => offline) "run" [runEntry] eq_refl) as (_ & _ & H).
  - apply (bool_decide_unpack _). vm_compute. exact I.
  - apply (H "run-verb-1" "To flow."); [| reflexivity | reflexivity].
    simpl. right. left. reflexivity.
Defined.

(** X15.  A head word that could not be translated is shown as its own
    translation.  Under Portuguese, when the cache has no valid entry for
    the word and the translation fails in a way [translateText] looks for,
    [fetchTranslation] sets the translation to the English word itself,
    labelled Portuguese, and leaves the cache alone. *)
Theorem fetchTranslation_failure_shows_word (st : App.State)
    (worldOf : string -> TranslateWorld) (word : string) :
  App.language st = ptBR ->
  cache_lookup (App.translationCache st) (mainWordKey word)
               (clock (worldOf (mainWordKey word))) = None ->
  translationFailsSeen (worldOf (mainWordKey word)) = true ->
  App.translation (fst (fetchTranslation st worldOf word) st)
  = Some (Translation.mk word Portugues)
  /\ App.translationCache (fst (fetchTranslation st worldOf word) st)
     = App.translationCache st.
Proof.
  intros Hl Hmiss Hfail.
  destruct (translateText_failure_seen ptBR (App.translationCache st)
              (worldOf (mainWordKey word)) word (Some (mainWordKey word)))
    as [Hret Hwrite]; [rewrite js_or_mainWordKey; exact Hmiss | exact Hfail |].
  unfold fetchTranslation. rewrite Hl. cbn [fst].
  unfold writeCache. rewrite Hret, Hwrite. destruct st; split; reflexivity.
Qed.

Lemma fetchTranslation_failure_shows_word_witness :
  App.translation
    (fst (fetchTranslation (withLanguage ptBR initialState) (fun _ => offline) "run")
         (withLanguage ptBR initialState))
  = Some (Translation.mk "run" Portugues).
Proof.
  apply (fetchTranslation_failure_shows_word (withLanguage ptBR initialState)
           (fun _ => offline) "run"); reflexivity.
Defined.

(** ** Changing the language *)

Lemma App_translation_setTranslation (t : option Translation.t) (s : App.State) :
  App.translation (App.setTranslation t s) = t.
Proof. destruct s; reflexivity. Qed.

Lemma App_translation_bulk (et dt : JsObject) (c : gmap string Cache.entry)
    (s : App.State) :
  App.translation
    (App.setExampleTranslations et
       (App.setDefinitionTranslations dt (App.setTranslationCache c s)))
  = App.translation s.
Proof. destruct s; reflexivity. Qed.

Lemma withLanguage_language (l : Language) (s : App.State) :
  App.language (withLanguage l s) = l.
Proof. destruct s; reflexivity. Qed.

(** X16.  Leaving English translates nothing.  When the language on screen is
    English, [changeLanguage] sends no request, for any target language and
    whatever word and definitions are displayed: it stores the language,
    empties the two translation objects and, when a word is displayed,
    sets the translation to null.  The word stays untranslated until the
    next search. *)
Theorem changeLanguage_from_english (st : App.State)
    (worldOf : string -> TranslateWorld) (lang : Language) :
  App.language st = en ->
  snd (changeLanguage st worldOf lang) = [LocalStorageSet "dictionaryLanguage"]
  /\ App.language (clickLanguage st worldOf lang) = lang
  /\ App.definitionTranslations (clickLanguage st worldOf lang) = []
  /\ App.exampleTranslations (clickLanguage st worldOf lang) = []
  /\ App.translation (clickLanguage st worldOf lang)
     = (if truthy (App.word st) then None else App.translation st)
  /\ App.translationCache (clickLanguage st worldOf lang) = App.translationCache st.
Proof.
  intros Hl. unfold clickLanguage, changeLanguage, fetchTranslation,
    translateDefinitionsAndExamples, nothing.
  rewrite Hl. destruct (truthy (App.word st)); destruct (App.definitions st);
    destruct st; repeat split; reflexivity.
Qed.

Lemma changeLanguage_from_english_witness :
  snd (changeLanguage (App.setDefinitions [runEntry] (App.setWord "run" initialState))
         (allAnswering "correr" 0) ptBR)
  = [LocalStorageSet "dictionaryLanguage"].
Proof.
  apply (changeLanguage_from_english
           (App.setDefinitions [runEntry] (App.setWord "run" initialState))
           (allAnswering "correr" 0) ptBR).
  reflexivity.
Defined.

Lemma writeCache_withLanguage (r : Translated) (l : Language) (s : App.State) :
  writeCache r (withLanguage l s) = withLanguage l (writeCache r s).
Proof. unfold writeCache. destruct (cacheWrite r); destruct s; reflexivity. Qed.

Lemma writeCaches_withLanguage (results : list (string * Translated))
    (l : Language) (s : App.State) :
  writeCaches results (withLanguage l s) = withLanguage l (writeCaches results s).
Proof.
  unfold writeCaches. revert s.
  induction results as [| r rs IH]; intros s; simpl; [reflexivity |].
  rewrite writeCache_withLanguage. apply IH.
Qed.

Lemma fetchTranslation_withLanguage (st : App.State)
    (worldOf : string -> TranslateWorld) (word : string) (l : Language)
    (s : App.State) :
  fst (fetchTranslation st worldOf word) (withLanguage l s)
  = withLanguage l (fst (fetchTranslation st worldOf word) s).
Proof.
  unfold fetchTranslation. destruct (App.language st); cbn [fst].
  - destruct s; reflexivity.
  - rewrite writeCache_withLanguage.
    destruct (writeCache _ s); reflexivity.
Qed.

Lemma bulk_withLanguage (st : App.State) (worldOf : string -> TranslateWorld)
    (data : list Entry.t) (l : Language) (s : App.State) :
  fst (translateDefinitionsAndExamples st worldOf data) (withLanguage l s)
  = withLanguage l (fst (translateDefinitionsAndExamples st worldOf data) s).
Proof.
  unfold translateDefinitionsAndExamples. destruct (App.language st); cbn [fst];
    [reflexivity |].
  rewrite !writeCaches_withLanguage.
  match goal with
  | |- context [withLanguage l ?x] => destruct x; reflexivity
  end.
Qed.

(** The update of [changeLanguage] is an update that does not depend on the
    language chosen, followed by the change of language. *)
Lemma clickLanguage_split (st : App.State) (worldOf : string -> TranslateWorld) :
  exists u : Update,
    forall lang, clickLanguage st worldOf lang = withLanguage lang (u st).
Proof.
  unfold clickLanguage, changeLanguage. cbn [fst].
  set (tr := if truthy (App.word st) then fetchTranslation st worldOf (App.word st)
             else nothing).
  set (bk := if truthy (App.word st)
             then match App.definitions st with
                  | [] => nothing
                  | _ :: _ =>
                      translateDefinitionsAndExamples st worldOf (App.definitions st)
                  end
             else nothing).
  exists (fun s => fst bk (fst tr (App.setExampleTranslations []
                                     (App.setDefinitionTranslations [] s)))).
  intros lang.
  assert (Htr : forall s, fst tr (withLanguage lang s) = withLanguage lang (fst tr s)).
  { intros s. subst tr. destruct (truthy (App.word st));
      [apply fetchTranslation_withLanguage | reflexivity]. }
  assert (Hbk : forall s, fst bk (withLanguage lang s) = withLanguage lang (fst bk s)).
  { intros s. subst bk. destruct (truthy (App.word st)); [| reflexivity].
    destruct (App.definitions st); [reflexivity | apply bulk_withLanguage]. }
  rewrite <- Hbk, <- Htr. do 2 f_equal. destruct st; reflexivity.
Qed.

(** X17.  [changeLanguage] translates for the language it leaves.  What it
    sends, and the translation, the translation objects and the cache it
    leaves, do not depend on the language chosen; with Portuguese on screen
    and a word displayed, choosing English calls the translation client for
    the word and leaves a translation labelled Portuguese in the state. *)
Theorem changeLanguage_reads_old_language (st : App.State)
    (worldOf : string -> TranslateWorld) :
  (forall lang lang' : Language,
     snd (changeLanguage st worldOf lang) = snd (changeLanguage st worldOf lang')
     /\ App.translation (clickLanguage st worldOf lang)
        = App.translation (clickLanguage st worldOf lang')
     /\ App.definitionTranslations (clickLanguage st worldOf lang)
        = App.definitionTranslations (clickLanguage st worldOf lang')
     /\ App.translationCache (clickLanguage st worldOf lang)
        = App.translationCache (clickLanguage st worldOf lang'))
  /\ (App.language st = ptBR -> truthy (App.word st) = true ->
      App.language (clickLanguage st worldOf en) = en
      /\ In (TranslateCall (App.word st) (Some (mainWordKey (App.word st))))
            (snd (changeLanguage st worldOf en))
      /\ exists text, App.translation (clickLanguage st worldOf en)
                      = Some (Translation.mk text Portugues)).
Proof.
  destruct (clickLanguage_split st worldOf) as [u Hu]. split.
  - intros lang lang'. split; [reflexivity |]. rewrite (Hu lang), (Hu lang').
    destruct (u st); repeat split; reflexivity.
  - intros Hl Hw. split; [rewrite Hu; apply withLanguage_language |]. split.
    + unfold changeLanguage, fetchTranslation. rewrite Hw, Hl. cbn [snd].
      right. apply in_or_app. left. left. reflexivity.
    + unfold clickLanguage, changeLanguage. rewrite Hw. cbn [fst].
      unfold fetchTranslation. rewrite Hl. cbn [fst].
      eexists.
      destruct (App.definitions st) as [| d ds].
      * unfold nothing. cbn [fst]. apply App_translation_setTranslation.
      * match goal with
        | |- App.translation (fst (translateDefinitionsAndExamples st worldOf ?da) ?s)
             = _ =>
            destruct (translateDefinitionsAndExamples_frame st worldOf da s)
              as (c & dt & et & ->)
        end.
        rewrite App_translation_bulk. apply App_translation_setTranslation.
Qed.

Lemma changeLanguage_reads_old_language_witness :
  App.language
    (clickLanguage (withLanguage ptBR (App.setWord "run" initialState))
       (fun _ => offline) en) = en
  /\ App.translation
       (clickLanguage (withLanguage ptBR (App.setWord "run" initialState))
          (fun _ => offline) en)
     = Some (Translation.mk "run" Portugues).
Proof.
  destruct (changeLanguage_reads_old_language
              (withLanguage ptBR (App.setWord "run" initialState))
              (fun _ => offline)) as [_ H].
  destruct (H eq_refl eq_refl) as (Hlang & _ & _).
  split; [exact Hlang | reflexivity].
Defined.

(** ** What a search leaves *)

Lemma fetchDefinitions_first_event (st : App.State) (r : DictionaryReply)
    (worldOf : string -> TranslateWorld) (word : string) :
  exists rest,
    snd (fetchDefinitions st r worldOf word)
    = Fetch (DictionaryEntries word) :: rest.
Proof. destruct r; simpl; eexists; reflexivity. Qed.

Lemma fetchRelatedWords_events (word : string) (syn trg adj : WordsReply) :
  exists rest,
    snd (fetchRelatedWords word syn trg adj)
    = (Fetch (DatamuseWords "rel_syn" word)
       :: Fetch (DatamuseWords "rel_trg" word)
       :: Fetch (DatamuseWords "rel_jjb" word) :: rest)%list.
Proof. destruct syn, trg, adj; simpl; eexists; reflexivity. Qed.

(** The state a search that goes through leaves, callback by callback. *)
Lemma handleSearch_unfold (st : App.State) (w : SearchWorld) (searchWord : string) :
  blank searchWord = false ->
  fst (handleSearch st w searchWord)
  = fst (fetchTranslation st (translations w) searchWord)
      (fst (fetchRelatedWords searchWord (synonyms w) (triggers w) (adjectives w))
         (fst (fetchDefinitions st (dictionary w) (translations w) searchWord)
            (App.setHistory (newHistory (App.history st) searchWord)
               (App.setWord searchWord st))))
  /\ snd (handleSearch st w searchWord)
     = (LocalStorageSet "dictionaryHistory"
        :: snd (fetchDefinitions st (dictionary w) (translations w) searchWord)
        ++ snd (fetchRelatedWords searchWord (synonyms w) (triggers w) (adjectives w))
        ++ snd (fetchTranslation st (translations w) searchWord))%list.
Proof.
  intros Hb. unfold handleSearch. rewrite truthy_trim, Hb. split; reflexivity.
Qed.

(** X18.  The word is searched as typed.  The guard of [handleSearch] trims,
    the rest does not: for a word that is not blank, the word of the state
    is the input with its surrounding white space, the history gets its
    lower-case form with that white space, and the lexical request and the
    three semantic requests carry it unchanged; the history is written to
    the store before the first request. *)
Theorem handleSearch_verbatim (st : App.State) (w : SearchWorld)
    (searchWord : string) :
  blank searchWord = false ->
  App.word (fst (handleSearch st w searchWord)) = searchWord
  /\ hd_error (App.history (fst (handleSearch st w searchWord)))
     = Some (toLowerCase searchWord)
  /\ (exists rest,
        snd (handleSearch st w searchWord)
        = LocalStorageSet "dictionaryHistory"
          :: Fetch (DictionaryEntries searchWord) :: rest)
  /\ In (Fetch (DatamuseWords "rel_syn" searchWord)) (snd (handleSearch st w searchWord))
  /\ In (Fetch (DatamuseWords "rel_trg" searchWord)) (snd (handleSearch st w searchWord))
  /\ In (Fetch (DatamuseWords "rel_jjb" searchWord)) (snd (handleSearch st w searchWord)).
Proof.
  intros Hb. destruct (handleSearch_unfold st w searchWord Hb) as [Hs He].
  split; [| split; [| split]].
  - rewrite Hs.
    destruct (fetchTranslation_frame st (translations w) searchWord
                (fst (fetchRelatedWords searchWord (synonyms w) (triggers w)
                        (adjectives w))
                   (fst (fetchDefinitions st (dictionary w) (translations w)
                           searchWord)
                      (App.setHistory (newHistory (App.history st) searchWord)
                         (App.setWord searchWord st))))) as (t & c & ->).
    destruct (fetchRelatedWords_frame searchWord (synonyms w) (triggers w)
                (adjectives w)
                (fst (fetchDefinitions st (dictionary w) (translations w) searchWord)
                   (App.setHistory (newHistory (App.history st) searchWord)
                      (App.setWord searchWord st)))) as (rel & ->).
    pose proof (fetchDefinitions_frame st (dictionary w) (translations w) searchWord
                  (App.setHistory (newHistory (App.history st) searchWord)
                     (App.setWord searchWord st))) as Hf.
    cbn zeta in Hf. destruct Hf as (Hw & _).
    transitivity (App.word
      (fst (fetchDefinitions st (dictionary w) (translations w) searchWord)
         (App.setHistory (newHistory (App.history st) searchWord)
            (App.setWord searchWord st)))).
    + match goal with
      | |- App.word (App.setTranslation _ (App.setTranslationCache _
             (App.setRelatedWords _ ?x))) = _ => destruct x; reflexivity
      end.
    + rewrite Hw. destruct st; reflexivity.
  - rewrite handleSearch_history, Hb. reflexivity.
  - rewrite He.
    destruct (fetchDefinitions_first_event st (dictionary w) (translations w)
                searchWord) as [rest ->].
    eexists. reflexivity.
  - rewrite He.
    destruct (fetchRelatedWords_events searchWord (synonyms w) (triggers w)
                (adjectives w)) as [rest ->].
    repeat split; right; apply in_or_app; right; apply in_or_app; left; simpl; auto.
Qed.

Lemma handleSearch_verbatim_witness :
  App.word (fst (handleSearch initialState silentWorld " Hello ")) = " Hello "
  /\ hd_error (App.history (fst (handleSearch initialState silentWorld " Hello ")))
     = Some " hello ".
Proof.
  destruct (handleSearch_verbatim initialState silentWorld " Hello " eq_refl)
    as (Hw & Hh & _).
  split; [exact Hw | exact Hh].
Defined.

(** X19.  A search never leaves the spinner on, and a lookup that succeeds
    clears the error of an earlier one.  After any search of a word that is
    not blank [loading] is false.  When the lexical API answers with
    entries, the error is null and the definitions are the entries, whatever
    they were: the main pane shows the first entry, or the welcome text when
    the answer is an empty list. *)
Theorem handleSearch_outcome (st : App.State) (w : SearchWorld)
    (searchWord : string) :
  blank searchWord = false ->
  App.loading (fst (handleSearch st w searchWord)) = false
  /\ (forall data, dictionary w = Parsed data ->
        App.error (fst (handleSearch st w searchWord)) = None
        /\ App.definitions (fst (handleSearch st w searchWord)) = data
        /\ mainView (fst (handleSearch st w searchWord))
           = match data with
             | firstDef :: _ => ContentView firstDef
             | [] => WelcomeView
             end).
Proof.
  intros Hb. destruct (handleSearch_unfold st w searchWord Hb) as [Hs _].
  rewrite Hs. clear Hs.
  match goal with
  | |- context [fst (fetchTranslation st ?wo ?sw) ?s] =>
      destruct (fetchTranslation_frame st wo sw s) as (t & c & ->)
  end.
  match goal with
  | |- context [fst (fetchRelatedWords ?sw ?a ?b ?d) ?s] =>
      destruct (fetchRelatedWords_frame sw a b d s) as (rel & ->)
  end.
  set (base := App.setHistory (newHistory (App.history st) searchWord)
                 (App.setWord searchWord st)).
  split.
  - destruct (dictionary w) as [err | status | err | data]; simpl;
      try (destruct base; reflexivity).
    destruct (translateDefinitionsAndExamples_frame st (translations w) data
                (App.setDefinitions data (App.setError None (App.setLoading true base))))
      as (c' & dt & et & ->).
    destruct base; reflexivity.
  - intros data ->. simpl.
    destruct (translateDefinitionsAndExamples_frame st (translations w) data
                (App.setDefinitions data (App.setError None (App.setLoading true base))))
      as (c' & dt & et & ->).
    unfold mainView. destruct base; simpl. repeat split; reflexivity.
Qed.

Lemma handleSearch_outcome_witness :
  App.loading (fst (handleSearch (App.setError (Some "Word not found") initialState)
                      silentWorld "run")) = false.
Proof.
  apply (handleSearch_outcome (App.setError (Some "Word not found") initialState)
           silentWorld "run").
  reflexivity.
Defined.

(** ** Restoring the persisted state *)

(** X20.  A value that does not parse stops the restore.  [loadPersistedData]
    never throws.  When the stored favourites or the stored history do not
    parse, the language and the translation cache are left as they were,
    although their stored values may be sound, and the failure is logged
    once; favourites that parsed before a corrupt history are restored.
    When nothing is corrupt every stored value is restored, the others keep
    their defaults, and nothing is logged. *)
Theorem loadPersistedData_stops (p : Persisted) (s : App.State) :
  (savedFavorites p = Corrupt \/ savedHistory p = Corrupt ->
   App.language (fst (loadPersistedData p) s) = App.language s
   /\ App.translationCache (fst (loadPersistedData p) s) = App.translationCache s
   /\ App.history (fst (loadPersistedData p) s) = App.history s
   /\ snd (loadPersistedData p) = [ConsoleError "Error loading persisted data:"])
  /\ (forall f, savedFavorites p = Holds f ->
        App.favorites (fst (loadPersistedData p) s) = f)
  /\ (savedFavorites p <> Corrupt -> savedHistory p <> Corrupt ->
      savedTranslations p <> Corrupt ->
      snd (loadPersistedData p) = []
      /\ App.favorites (fst (loadPersistedData p) s)
         = match savedFavorites p with Holds f => f | _ => App.favorites s end
      /\ App.history (fst (loadPersistedData p) s)
         = match savedHistory p with Holds h => h | _ => App.history s end
      /\ App.language (fst (loadPersistedData p) s)
         = match savedLanguage p with Some l => l | None => App.language s end
      /\ App.translationCache (fst (loadPersistedData p) s)
         = match savedTranslations p with
           | Holds c => c
           | _ => App.translationCache s
           end).
Proof.
  unfold loadPersistedData, restore, nothing.
  split; [| split].
  - intros [H | H]; rewrite H.
    + repeat split; reflexivity.
    + destruct (savedFavorites p); destruct s; repeat split; reflexivity.
  - intros f ->. destruct (savedHistory p); [| destruct s; reflexivity |];
      destruct (savedLanguage p); destruct (savedTranslations p); destruct s;
      reflexivity.
  - intros Hf Hh Ht.
    destruct (savedFavorites p); [| contradiction |];
      (destruct (savedHistory p); [| contradiction |]);
      destruct (savedLanguage p);
      (destruct (savedTranslations p); [| contradiction |]);
      destruct s; repeat split; reflexivity.
Qed.

Lemma loadPersistedData_stops_witness :
  App.language
    (fst (loadPersistedData
            {| savedFavorites := Holds ["run"]; savedHistory := Corrupt;
               savedLanguage := Some ptBR; savedTranslations := Missing |})
         initialState) = en
  /\ App.favorites
       (fst (loadPersistedData
               {| savedFavorites := Holds ["run"]; savedHistory := Corrupt;
                  savedLanguage := Some ptBR; savedTranslations := Missing |})
            initialState) = ["run"].
Proof.
  destruct (loadPersistedData_stops
              {| savedFavorites := Holds ["run"]; savedHistory := Corrupt;
                 savedLanguage := Some ptBR; savedTranslations := Missing |}
              initialState) as (H1 & H2 & _).
  split.
  - apply H1. right. reflexivity.
  - apply (H2 ["run"]). reflexivity.
Defined.

(** ** The plain revision *)

Lemma plain_fetchDefinitions_frame (r : DictionaryReply) (word : string)
    (s : Plain.State) :
  exists d lo e,
    fst (Plain.fetchDefinitions r word) s
    = Plain.setLoading lo (Plain.setDefinitions d (Plain.setError e s)).
Proof.
  destruct r; simpl; eexists _, _, _; destruct s; reflexivity.
Qed.

Lemma plain_fetchRelatedWords_frame (word : string) (syn trg adj : WordsReply)
    (s : Plain.State) :
  exists related,
    fst (Plain.fetchRelatedWords word syn trg adj) s
    = Plain.setRelatedWords related s.
Proof.
  destruct syn, trg, adj; simpl;
    try (exists (Plain.relatedWords s); destruct s; reflexivity).
  eexists; reflexivity.
Qed.

Lemma plain_fetchTranslation_frame (st : Plain.State) (r : Plain.LibreReply)
    (word : string) (s : Plain.State) :
  exists t, fst (Plain.fetchTranslation st r word) s = Plain.setTranslation t s.
Proof.
  unfold Plain.fetchTranslation.
  destruct (Plain.language st), r; simpl;
    try (exists (Plain.translation s); destruct s; reflexivity);
    eexists; reflexivity.
Qed.

(** A search of the plain revision writes the history from the history of
    the render that created [handleSearch]. *)
Lemma plain_handleSearch_history (st : Plain.State) (w : Plain.World)
    (searchWord : string) (s : Plain.State) :
  Plain.history (fst (Plain.handleSearch st w searchWord) s)
  = if blank searchWord then Plain.history s
    else newHistory (Plain.history st) searchWord.
Proof.
  unfold Plain.handleSearch. rewrite truthy_trim.
  destruct (blank searchWord); cbn [negb fst]; [reflexivity |].
  match goal with
  | |- context [fst (Plain.fetchTranslation st ?r ?sw) ?x] =>
      destruct (plain_fetchTranslation_frame st r sw x) as (t & ->)
  end.
  match goal with
  | |- context [fst (Plain.fetchRelatedWords ?sw ?a ?b ?d) ?x] =>
      destruct (plain_fetchRelatedWords_frame sw a b d x) as (rel & ->)
  end.
  match goal with
  | |- context [fst (Plain.fetchDefinitions ?r ?sw) ?x] =>
      destruct (plain_fetchDefinitions_frame r sw x) as (d & lo & e & ->)
  end.
  destruct s; reflexivity.
Qed.

Lemma lastSearched_from (l : list (Plain.World * string)) (acc : option string) :
  fold_left (fun a ws => if blank (snd ws) then a else Some (snd ws)) l acc
  = match Plain.lastSearched l with
    | Some w => Some w
    | None => acc
    end.
Proof.
  unfold Plain.lastSearched. revert acc.
  induction l as [| ws r IH]; intros acc; simpl; [reflexivity |].
  rewrite (IH (if blank (snd ws) then acc else Some (snd ws))).
  rewrite (IH (if blank (snd ws) then None else Some (snd ws))).
  destruct (fold_left _ r None); [reflexivity |].
  destruct (blank (snd ws)); reflexivity.
Qed.

(** X21.  In [src/src/App.tsx] the history forgets all but the last search.
    [handleSearch] is not renewed when the history changes, so it keeps
    calling the [addToHistory] of the render that created it.  After any
    run of searches without a change of language, the history is the one
    of that render with the last word searched recorded in it: the words
    searched before it in the run are not in the history unless they were
    there at that render.  From a fresh start the history holds one word. *)
Theorem plain_history_keeps_last_search (ss : Plain.Session)
    (l : list (Plain.World * string)) :
  Plain.history (Plain.shown (Plain.searches ss l))
  = match Plain.lastSearched l with
    | Some word => newHistory (Plain.history (Plain.made ss)) word
    | None => Plain.history (Plain.shown ss)
    end
  /\ Plain.made (Plain.searches ss l) = Plain.made ss
  /\ (Plain.history (Plain.made ss) = [] ->
      length (Plain.history (Plain.shown ss)) <= 1 ->
      length (Plain.history (Plain.shown (Plain.searches ss l))) <= 1).
Proof.
  assert (H : Plain.history (Plain.shown (Plain.searches ss l))
              = match Plain.lastSearched l with
                | Some word => newHistory (Plain.history (Plain.made ss)) word
                | None => Plain.history (Plain.shown ss)
                end
              /\ Plain.made (Plain.searches ss l) = Plain.made ss).
  { unfold Plain.searches. revert ss.
    induction l as [| [w word] r IH]; intros ss; [split; reflexivity |].
    cbn [fold_left fst snd]. destruct (IH (Plain.search ss w word)) as [Hh Hm].
    split; [| rewrite Hm; reflexivity].
    rewrite Hh. unfold Plain.lastSearched at 2. cbn [fold_left snd].
    rewrite lastSearched_from.
    destruct (Plain.lastSearched r); [reflexivity |].
    unfold Plain.search. cbn [Plain.shown Plain.made].
    rewrite plain_handleSearch_history. destruct (blank word); reflexivity. }
  destruct H as [Hh Hm]. split; [exact Hh |]. split; [exact Hm |].
  intros Hmade Hshown. rewrite Hh.
  destruct (Plain.lastSearched l); [| exact Hshown].
  rewrite Hmade. simpl. lia.
Qed.

Lemma plain_history_keeps_last_search_witness :
  length
    (Plain.history
       (Plain.shown
          (Plain.searches (Plain.start Plain.initial)
             [(Plain.quiet, "Hello"); (Plain.quiet, "WORLD")]))) <= 1.
Proof.
  apply (plain_history_keeps_last_search (Plain.start Plain.initial)
           [(Plain.quiet, "Hello"); (Plain.quiet, "WORLD")]).
  - reflexivity.
  - simpl. lia.
Defined.

(** Three searches with silent services, in the plain revision. *)
Example plain_hello_world_hello :
  Plain.history
    (Plain.shown
       (Plain.searches (Plain.start Plain.initial)
          [(Plain.quiet, "Hello"); (Plain.quiet, "WORLD"); (Plain.quiet, "hello")]))
  = ["hello"].
Proof. reflexivity. Qed.

(** C5 at the failing input.  In [src/src/App.tsx], from the first render
    (empty history, English), the searches "Hello", "WORLD", "hello" leave
    the history ["hello"], not ["hello"; "world"], whatever the services
    answer: [handleSearch] is memoised without [addToHistory] among its
    dependencies (App 151) and keeps recording on the empty history of the
    render that created it.  [addToHistory] itself does what the claim says
    on the history it is given, and the revision of [src/README.md], whose
    dependency list holds [addToHistory] (README 444), leaves
    ["hello"; "world"]. *)
Theorem plain_search_run_forgets :
  (forall w1 w2 w3 : Plain.World,
     Plain.history
       (Plain.shown
          (Plain.searches (Plain.start Plain.initial)
             [(w1, "Hello"); (w2, "WORLD"); (w3, "hello")]))
     = ["hello"])
  /\ ["hello"] <> ["hello"; "world"]
  /\ newHistory (newHistory (newHistory [] "Hello") "WORLD") "hello"
     = ["hello"; "world"]
  /\ (forall w1 w2 w3 : SearchWorld,
        App.history
          (searchAll initialState [(w1, "Hello"); (w2, "WORLD"); (w3, "hello")])
        = ["hello"; "world"]).
Proof.
  split; [| split; [| split]].
  - intros w1 w2 w3. unfold Plain.searches, Plain.search, Plain.start.
    cbn [fold_left fst snd Plain.shown Plain.made].
    rewrite plain_handleSearch_history. reflexivity.
  - discriminate.
  - reflexivity.
  - intros w1 w2 w3. unfold searchAll. cbn [fold_left fst snd].
    rewrite !handleSearch_history. reflexivity.
Qed.

(** After a change of language the history on screen is the one the next
    searches record on. *)
Example plain_history_after_language_change :
  Plain.history
    (Plain.shown
       (Plain.searches
          (Plain.switchLanguage
             (Plain.searches (Plain.start Plain.initial) [(Plain.quiet, "Hello")])
             Plain.LibreRejected Plain.pt)
          [(Plain.quiet, "WORLD"); (Plain.quiet, "again")]))
  = ["again"; "hello"].
Proof. reflexivity. Qed.

(** X22.  The plain revision keeps the translation of the previous word.  A
    search whose translation request is not made (English) or fails (the
    request or the parse is rejected, the body is null) sets the word to
    the one searched and leaves the translation in the state as it was: so
    under Portuguese or Spanish the word display shows the new word with
    the translation of the word searched before.  A body without
    [translatedText] makes the translation undefined, and nothing is
    shown. *)
Theorem plain_translation_kept (st : Plain.State) (w : Plain.World)
    (searchWord : string) (s : Plain.State) :
  blank searchWord = false ->
  (Plain.language st = Plain.en \/ Plain.libre w = Plain.LibreRejected
   \/ Plain.libre w = Plain.LibreNull ->
   Plain.translation (fst (Plain.handleSearch st w searchWord) s)
   = Plain.translation s
   /\ Plain.word (fst (Plain.handleSearch st w searchWord) s) = searchWord
   /\ (Plain.language s = Plain.language st ->
       Plain.shownTranslation (fst (Plain.handleSearch st w searchWord) s)
       = Plain.shownTranslation s))
  /\ (Plain.language st <> Plain.en ->
      forall t, Plain.libre w = Plain.LibreBody t ->
      Plain.translation (fst (Plain.handleSearch st w searchWord) s) = t).
Proof.
  intros Hb. unfold Plain.handleSearch. rewrite truthy_trim, Hb. cbn [negb fst].
  destruct (plain_fetchRelatedWords_frame searchWord (Plain.synonyms w)
              (Plain.triggers w) (Plain.adjectives w)
              (fst (Plain.fetchDefinitions (Plain.dictionary w) searchWord)
                 (fst (Plain.addToHistory st searchWord)
                    (Plain.setWord searchWord s)))) as (rel & ->).
  destruct (plain_fetchDefinitions_frame (Plain.dictionary w) searchWord
              (fst (Plain.addToHistory st searchWord) (Plain.setWord searchWord s)))
    as (d & lo & e & ->).
  split.
  - intros Hcase.
    assert (Hid : forall x, fst (Plain.fetchTranslation st (Plain.libre w) searchWord) x
                            = x).
    { intros x. unfold Plain.fetchTranslation.
      destruct Hcase as [-> | [-> | ->]]; [reflexivity | |];
        destruct (Plain.language st); reflexivity. }
    rewrite Hid. unfold Plain.shownTranslation.
    destruct s; simpl. repeat split; reflexivity.
  - intros Hne t Ht. unfold Plain.fetchTranslation. rewrite Ht.
    destruct (Plain.language st); [contradiction | |]; destruct s; reflexivity.
Qed.

Lemma plain_translation_kept_witness :
  Plain.shownTranslation
    (fst (Plain.handleSearch (Plain.setLanguage Plain.pt Plain.initial)
            Plain.quiet "walk")
         (Plain.setTranslation (Some "correr")
            (Plain.setWord "run" (Plain.setLanguage Plain.pt Plain.initial))))
  = Some "correr"
  /\ Plain.word
       (fst (Plain.handleSearch (Plain.setLanguage Plain.pt Plain.initial)
               Plain.quiet "walk")
            (Plain.setTranslation (Some "correr")
               (Plain.setWord "run" (Plain.setLanguage Plain.pt Plain.initial))))
     = "walk".
Proof.
  destruct (plain_translation_kept (Plain.setLanguage Plain.pt Plain.initial)
              Plain.quiet "walk"
              (Plain.setTranslation (Some "correr")
                 (Plain.setWord "run" (Plain.setLanguage Plain.pt Plain.initial)))
              eq_refl) as [H _].
  destruct (H (or_intror (or_introl eq_refl))) as (_ & Hw & Hs).
  split; [rewrite (Hs eq_refl); reflexivity | exact Hw].
Defined.

(** X23.  The plain [changeLanguage] asks for the language it leaves.  What
    it sends does not depend on the language chosen.  Leaving English sends
    no request and leaves the translation as it was; leaving Portuguese or
    Spanish with a word displayed asks for a translation into the language
    left, not into the one chosen. *)
Theorem plain_changeLanguage_reads_old_language (st : Plain.State)
    (r : Plain.LibreReply) :
  (forall lang lang' : Plain.Language,
     snd (Plain.changeLanguage st r lang) = snd (Plain.changeLanguage st r lang')
     /\ Plain.translation (fst (Plain.changeLanguage st r lang) st)
        = Plain.translation (fst (Plain.changeLanguage st r lang') st))
  /\ (Plain.language st = Plain.en ->
      forall lang,
        snd (Plain.changeLanguage st r lang)
        = [Plain.Did (LocalStorageSet "dictionaryLanguage")]
        /\ Plain.translation (fst (Plain.changeLanguage st r lang) st)
           = Plain.translation st
        /\ Plain.language (fst (Plain.changeLanguage st r lang) st) = lang)
  /\ (Plain.language st <> Plain.en -> truthy (Plain.word st) = true ->
      forall lang,
        nth_error (snd (Plain.changeLanguage st r lang)) 1
        = Some (Plain.FetchLibre (Plain.word st) "en"
                  (Plain.targetLang (Plain.language st)))).
Proof.
  unfold Plain.changeLanguage, Plain.fetchTranslation. split; [| split].
  - intros lang lang'. split; [reflexivity |].
    destruct (truthy (Plain.word st)); [| destruct st; reflexivity].
    destruct (Plain.language st), r; destruct st; reflexivity.
  - intros Hl lang. rewrite Hl.
    destruct (truthy (Plain.word st)); destruct st; repeat split; reflexivity.
  - intros Hne Hw lang. rewrite Hw.
    destruct (Plain.language st); [contradiction | |]; destruct r; reflexivity.
Qed.

Lemma plain_changeLanguage_reads_old_language_witness :
  snd (Plain.changeLanguage (Plain.setWord "run" Plain.initial)
         (Plain.LibreBody (Some "correr")) Plain.pt)
  = [Plain.Did (LocalStorageSet "dictionaryLanguage")]
  /\ nth_error
       (snd (Plain.changeLanguage
               (Plain.setLanguage Plain.pt (Plain.setWord "run" Plain.initial))
               (Plain.LibreBody (Some "correr")) Plain.es)) 1
     = Some (Plain.FetchLibre "run" "en" "pt").
Proof.
  split.
  - apply (plain_changeLanguage_reads_old_language
             (Plain.setWord "run" Plain.initial) (Plain.LibreBody (Some "correr")));
      reflexivity.
  - apply (plain_changeLanguage_reads_old_language
             (Plain.setLanguage Plain.pt (Plain.setWord "run" Plain.initial))
             (Plain.LibreBody (Some "correr"))); [discriminate | reflexivity].
Defined.

(** ** The meaning cards *)

Lemma indexed_firstn {A : Type} (n : nat) (l : list A) :
  indexed (firstn n l) = firstn n (indexed l).
Proof.
  unfold indexed. rewrite combine_firstn, take_seq, length_firstn. reflexivity.
Qed.

Lemma definitionOf_keys (word partOfSpeech : string) (l : list (nat * Def.t)) :
  map fst (flat_map (definitionOf word partOfSpeech) l)
  = map (fun d => defKey word partOfSpeech (fst d)) l.
Proof.
  induction l as [| d r IH]; [reflexivity |].
  cbn [flat_map definitionOf app map fst]. rewrite IH. reflexivity.
Qed.

(** X24.  A meaning card reads the keys of the definitions it shows.  The
    card shows at most five definitions; [slice(0, 5)] keeps the index of
    each in the meaning, so the keys the card builds are the first five of
    the keys under which the bulk translation stored the definitions of
    that meaning, in order.  (The definitions after the fifth are
    translated and never shown.) *)
Theorem meaningCard_keys (word : string) (meaning : Meaning.t) :
  map fst (meaningCardKeys word meaning)
  = firstn 5 (map fst (flat_map (definitionOf word (Meaning.partOfSpeech meaning))
                                (indexed (Meaning.definitions meaning))))
  /\ length (meaningCardKeys word meaning)
     = Nat.min 5 (length (Meaning.definitions meaning))
  /\ (forall i d, In (i, d) (indexed (firstn 5 (Meaning.definitions meaning))) ->
                  In (i, d) (indexed (Meaning.definitions meaning))
                  /\ In (defKey word (Meaning.partOfSpeech meaning) i,
                         exampleKey word (Meaning.partOfSpeech meaning) i)
                        (meaningCardKeys word meaning)).
Proof.
  unfold meaningCardKeys. split; [| split].
  - rewrite definitionOf_keys, map_map, indexed_firstn, firstn_map. reflexivity.
  - rewrite length_map. unfold indexed.
    rewrite length_combine, length_seq, Nat.min_id. apply length_firstn.
  - intros i d Hin. split.
    + rewrite indexed_firstn in Hin. exact (In_firstn _ _ _ Hin).
    + apply in_map_iff. exists (i, d). split; [reflexivity | exact Hin].
Qed.

Lemma meaningCard_keys_witness :
  In ("run-verb-1", "run-verb-1-example")
     (meaningCardKeys "run"
        (Meaning.mk "verb" [Def.mk "To move swiftly." None; Def.mk "To flow." None])).
Proof.
  destruct (meaningCard_keys "run"
              (Meaning.mk "verb" [Def.mk "To move swiftly." None;
                                  Def.mk "To flow." None])) as (_ & _ & H).
  apply (H 1 (Def.mk "To flow." None)). simpl. right. left. reflexivity.
Defined.

(** ** The fetchers of a search do not wait for each other *)

(** X25.  The related words of a search depend on the semantic API alone.
    After a search of a word that is not blank, the related words are the
    aggregation of the three lists when the three requests deliver, and the
    related words of before otherwise, whatever the lexical API and the
    translation service did: a lookup that fails, and shows its error, does
    not keep the related words from being replaced. *)
Theorem handleSearch_related_words (st : App.State) (w : SearchWorld)
    (searchWord : string) :
  blank searchWord = false ->
  App.relatedWords (fst (handleSearch st w searchWord))
  = match synonyms w, triggers w, adjectives w with
    | Words s, Words t, Words a => combined s t a
    | _, _, _ => App.relatedWords st
    end.
Proof.
  intros Hb. destruct (handleSearch_unfold st w searchWord Hb) as [Hs _].
  rewrite Hs. clear Hs.
  match goal with
  | |- context [fst (fetchTranslation st ?wo ?sw) ?s] =>
      destruct (fetchTranslation_frame st wo sw s) as (t & c & ->)
  end.
  set (looked := fst (fetchDefinitions st (dictionary w) (translations w) searchWord)
                   (App.setHistory (newHistory (App.history st) searchWord)
                      (App.setWord searchWord st))).
  assert (Hl : App.relatedWords looked = App.relatedWords st).
  { pose proof (fetchDefinitions_frame st (dictionary w) (translations w) searchWord
                  (App.setHistory (newHistory (App.history st) searchWord)
                     (App.setWord searchWord st))) as Hf.
    cbn zeta in Hf. destruct Hf as (_ & Hr & _). subst looked. rewrite Hr.
    destruct st; reflexivity. }
  destruct (synonyms w), (triggers w), (adjectives w); cbn [fetchRelatedWords fst];
    try (rewrite <- Hl; destruct looked; reflexivity).
  destruct looked; reflexivity.
Qed.

Lemma handleSearch_related_words_witness :
  App.relatedWords
    (fst (handleSearch initialState
            {| dictionary := HttpError 404; synonyms := Words [RelatedWord.mk "jog" 500];
               triggers := Words []; adjectives := Words [];
               translations := fun _ => offline |} "run"))
  = [RelatedWord.mk "jog" 500].
Proof.
  apply (handleSearch_related_words initialState
           {| dictionary := HttpError 404; synonyms := Words [RelatedWord.mk "jog" 500];
              triggers := Words []; adjectives := Words [];
              translations := fun _ => offline |} "run").
  reflexivity.
Defined.
